(** * Compliance scanner: find-insecure-gh-repos.py

    A shallow embedding of [src/find-insecure-gh-repos.py] and the
    properties of its observable behaviour.

    Modelling conventions.
    - A Python [str] is a Rocq [string] holding the UTF-8 encoding of the
      text (the standard output of a command is taken as already decoded by
      [subprocess.run(..., text=True)]).
    - The outside world is a function [gh] from the shell command line to
      [None] (the command exits with a non-zero status, which
      [check=True] turns into [CalledProcessError]) or [Some stdout].
      These are the two answers of a command that was started and whose
      output is text.  A command line that [subprocess.run] refuses to
      start (a NUL character in it gives [ValueError]), an output that is
      not UTF-8 ([UnicodeDecodeError]) and a text that standard output
      cannot encode ([UnicodeEncodeError]) are outside the model: every
      statement below is about runs in which each command is answered in
      one of the two ways and each write succeeds.
    - The script is a tree of interactions ([prog]): it issues commands,
      writes to standard output, raises or exits.  [run] interprets such a
      tree against a world and records every interaction in order.
    - [json.loads] and [str()] of a float, a list or a dict belong to the
      Python library; the scanner is written over them as section variables
      ([loads], [repr_of]).  A decoder for the JSON grammar that [json.loads]
      accepts ([json_loads]) instantiates the first one in the examples; it
      has none of the limits of the interpreter (recursion depth, the digits
      of an [int]), which [loads] is free to have. *)

From Stdlib Require Import String Ascii List ZArith NArith Bool Arith Lia DecimalString.
Import ListNotations.

Local Open Scope list_scope.
Local Open Scope string_scope.

(* ================================================================== *)
(** ** Text *)

Module Text.

(** [str(n)] for the non-negative integers the script formats
    ([i], [total_repos], [non_compliant_count]). *)
Definition str_of_nat (n : nat) : string :=
  NilZero.string_of_uint (Nat.to_uint n).

(** [" " * n] *)
Definition spaces (n : nat) : string :=
  string_of_list_ascii (repeat " "%char n).

Definition rev_string (s : string) : string :=
  string_of_list_ascii (rev (list_ascii_of_string s)).

Definition bytes (l : list nat) : string :=
  string_of_list_ascii (map ascii_of_nat l).

(** The characters [str.isspace] accepts.  The ASCII ones are
    U+0009..U+000D and U+001C..U+0020. *)
Definition ascii_space (c : ascii) : bool :=
  let n := nat_of_ascii c in
  ((9 <=? n)%nat && (n <=? 13)%nat) || ((28 <=? n)%nat && (n <=? 32)%nat).

(** The others, by their UTF-8 encoding: U+0085, U+00A0, U+1680,
    U+2000..U+200A, U+2028, U+2029, U+202F, U+205F, U+3000. *)
Definition wide_spaces : list string :=
  ([ bytes [194; 133]; bytes [194; 160]; bytes [225; 154; 128] ]
   ++ map (fun b => bytes [226; 128; b]) (seq 128 11)
   ++ [ bytes [226; 128; 168]; bytes [226; 128; 169]; bytes [226; 128; 175];
        bytes [226; 129; 159]; bytes [227; 128; 128] ])%list.

(** Number of bytes of the whitespace character [s] starts with, [0] when
    it starts with none. *)
Definition space_width (wide : list string) (s : string) : nat :=
  match s with
  | EmptyString => 0
  | String c _ =>
      if ascii_space c then 1
      else match find (fun t => prefix t s) wide with
           | Some t => String.length t
           | None => 0
           end
  end.

(** Drops [skip] bytes and then every leading whitespace character. *)
Fixpoint drop_spaces (wide : list string) (skip : nat) (s : string) : string :=
  match s with
  | EmptyString => EmptyString
  | String _ r =>
      match skip with
      | S k => drop_spaces wide k r
      | O => match space_width wide s with
             | O => s
             | S k => drop_spaces wide k r
             end
      end
  end.

Definition lstrip (s : string) : string := drop_spaces wide_spaces 0 s.

Definition rstrip (s : string) : string :=
  rev_string (drop_spaces (map rev_string wide_spaces) 0 (rev_string s)).

(** [s.strip()] *)
Definition strip (s : string) : string := rstrip (lstrip s).

(** Truth value of a [str]: non-empty. *)
Definition nonempty (s : string) : bool :=
  match s with EmptyString => false | String _ _ => true end.

(** A continuation byte of the encoding (10xxxxxx). *)
Definition is_continuation (c : ascii) : bool :=
  let n := nat_of_ascii c in (128 <=? n)%nat && (n <? 192)%nat.

(** The characters of a [str], each with the bytes of its encoding:
    [len(s)] is their number, [for c in s] visits them. *)
Fixpoint chars (s : string) : list string :=
  match s with
  | EmptyString => []
  | String c r =>
      match chars r with
      | [] => [String c EmptyString]
      | t :: ts =>
          match t with
          | String d _ => if is_continuation d then String c t :: ts
                          else String c EmptyString :: t :: ts
          | EmptyString => String c EmptyString :: ts
          end
      end
  end.

End Text.

(* ================================================================== *)
(** ** Python values and exceptions *)

(** The exceptions the script can meet.  [ValueError] and
    [RecursionError] are those [json.loads] raises at a limit of the
    interpreter (the digits of an [int], the depth of nesting); they are no
    [JSONDecodeError].  [IndexError] is that of [sys.argv[0]] on an empty
    argument list. *)
Inductive exn : Set :=
| JSONDecodeError
| AttributeError
| TypeError
| KeyError
| ValueError
| RecursionError
| IndexError.

Inductive result (A : Type) : Type :=
| Ok (a : A)
| Err (e : exn).
Arguments Ok {A} a.
Arguments Err {A} e.

(** A [float] read from a decimal literal: the double nearest to
    [(-1)^neg * m * 10^e]; [nan]; the infinities. *)
Inductive pyfloat : Set :=
| FDec (neg : bool) (m : N) (e : Z)
| FNaN
| FInf (neg : bool).

(** What [json.loads] builds: [None], [bool], [int], [float], [str],
    [list] and [dict] (keys in insertion order, each key once). *)
#[warnings="-register-all"]
Inductive json : Set :=
| JNull
| JBool (b : bool)
| JInt (z : Z)
| JFloat (f : pyfloat)
| JString (s : string)
| JArray (items : list json)
| JObject (pairs : list (string * json)).

Module Py.

(** [f != 0.0].  A decimal rounds to zero exactly when it is at most
    2^-1075, half the least positive double (the tie goes to the even
    neighbour, which is zero). *)
Definition float_nonzero (f : pyfloat) : bool :=
  match f with
  | FDec _ m e =>
      if (0 <=? e)%Z then negb (N.eqb m 0)
      else (10 ^ (- e) <? Z.of_N m * 2 ^ 1075)%Z
  | FNaN => true
  | FInf _ => true
  end.

(** [bool(v)], the test behind [if v:] and [not v]. *)
Definition truthy (v : json) : bool :=
  match v with
  | JNull => false
  | JBool b => b
  | JInt z => negb (Z.eqb z 0)
  | JFloat f => float_nonzero f
  | JString s => Text.nonempty s
  | JArray items => match items with [] => false | _ :: _ => true end
  | JObject pairs => match pairs with [] => false | _ :: _ => true end
  end.

(** Truth value of what [run_command] returns: [None] and [''] are
    false. *)
Definition truthy_output (o : option string) : bool :=
  match o with
  | None => false
  | Some s => Text.nonempty s
  end.

Fixpoint dict_get (k : string) (d : list (string * json)) : option json :=
  match d with
  | [] => None
  | (k', v) :: d' => if String.eqb k k' then Some v else dict_get k d'
  end.

(** [d[k] = v]: an existing key keeps its place. *)
Fixpoint dict_set (k : string) (v : json) (d : list (string * json))
  : list (string * json) :=
  match d with
  | [] => [(k, v)]
  | (k', v') :: d' =>
      if String.eqb k k' then (k', v) :: d' else (k', v') :: dict_set k v d'
  end.

(** [v.get(k, default)]: only a [dict] has the method. *)
Definition get (v : json) (k : string) (default : json) : result json :=
  match v with
  | JObject d => Ok (match dict_get k d with Some x => x | None => default end)
  | _ => Err AttributeError
  end.

(** [v[k]] for a [str] key [k]: the entry of a [dict] ([KeyError] when it
    has none); a [str] or a [list] takes integer indices only and the
    other values no index at all. *)
Definition getitem (v : json) (k : string) : result json :=
  match v with
  | JObject d => match dict_get k d with Some x => Ok x | None => Err KeyError end
  | _ => Err TypeError
  end.

(** [len(v)] *)
Definition len (v : json) : result nat :=
  match v with
  | JArray items => Ok (List.length items)
  | JObject d => Ok (List.length d)
  | JString s => Ok (List.length (Text.chars s))
  | _ => Err TypeError
  end.

(** The elements [for x in v] visits, for the values that have a
    length: the items of a [list], the keys of a [dict], the characters
    of a [str]. *)
Definition iter (v : json) : list json :=
  match v with
  | JArray items => items
  | JObject d => map (fun kv => JString (fst kv)) d
  | JString s => map JString (Text.chars s)
  | _ => []
  end.

End Py.

(* ================================================================== *)
(** ** A decoder for the JSON text [json.loads] accepts

    It follows the scanner of the [json] package: [scan_once] dispatches on
    the next character, [scanstring] reads a string body, [match_number]
    is the number pattern (an optional minus sign, then a zero or a run of
    digits that does not start with one, then an optional fraction and an
    optional exponent), and the array and object loops accept the same
    separators and whitespace.  The constants [NaN], [Infinity] and
    [-Infinity] are accepted as the package accepts them.  A text the
    grammar refuses is a [JSONDecodeError]. *)

Module Decoder.

Local Open Scope N_scope.

Inductive scan (A : Type) : Type :=
| Scanned (a : A) (rest : string)
| Malformed
| OutOfFuel.
Arguments Scanned {A} a rest.
Arguments Malformed {A}.
Arguments OutOfFuel {A}.

Definition code (c : ascii) : N := N_of_ascii c.

(** The whitespace of the grammar: space, tab, line feed, carriage
    return. *)
Definition is_ws (c : ascii) : bool :=
  let n := code c in
  N.eqb n 32 || N.eqb n 9 || N.eqb n 10 || N.eqb n 13.

Fixpoint skip_ws (s : string) : string :=
  match s with
  | String c r => if is_ws c then skip_ws r else s
  | EmptyString => s
  end.

Definition is_digit (c : ascii) : bool :=
  let n := code c in N.leb 48 n && N.leb n 57.

Definition digit_val (c : ascii) : N := code c - 48.

Definition hex_val (c : ascii) : option N :=
  let n := code c in
  if N.leb 48 n && N.leb n 57 then Some (n - 48)
  else if N.leb 65 n && N.leb n 70 then Some (n - 55)
  else if N.leb 97 n && N.leb n 102 then Some (n - 87)
  else None.

Definition hex4 (a b c d : ascii) : option N :=
  match hex_val a, hex_val b, hex_val c, hex_val d with
  | Some x, Some y, Some z, Some w => Some (((x * 16 + y) * 16 + z) * 16 + w)
  | _, _, _, _ => None
  end.

Definition byte (n : N) : ascii := ascii_of_N n.

(** [chr(n)] in UTF-8.  A lone surrogate, which a Python [str] can hold,
    takes the three-byte form. *)
Definition utf8 (n : N) : string :=
  if N.ltb n 128 then String (byte n) EmptyString
  else if N.ltb n 2048 then
    String (byte (192 + n / 64)) (String (byte (128 + n mod 64)) EmptyString)
  else if N.ltb n 65536 then
    String (byte (224 + n / 4096))
      (String (byte (128 + (n / 64) mod 64))
         (String (byte (128 + n mod 64)) EmptyString))
  else
    String (byte (240 + n / 262144))
      (String (byte (128 + (n / 4096) mod 64))
         (String (byte (128 + (n / 64) mod 64))
            (String (byte (128 + n mod 64)) EmptyString))).

Definition is_high_surrogate (n : N) : bool := N.leb 55296 n && N.leb n 56319.
Definition is_low_surrogate (n : N) : bool := N.leb 56320 n && N.leb n 57343.

(** The one-character escapes. *)
Definition backslash (c : ascii) : option ascii :=
  let n := code c in
  if N.eqb n 34 then Some c                      (* quote *)
  else if N.eqb n 92 then Some c                 (* backslash *)
  else if N.eqb n 47 then Some c                 (* slash *)
  else if N.eqb n 98 then Some (byte 8)          (* b: backspace *)
  else if N.eqb n 102 then Some (byte 12)        (* f: form feed *)
  else if N.eqb n 110 then Some (byte 10)        (* n: line feed *)
  else if N.eqb n 114 then Some (byte 13)        (* r: carriage return *)
  else if N.eqb n 116 then Some (byte 9)         (* t: tab *)
  else None.

Definition prepend (p : string) (r : scan string) : scan string :=
  match r with
  | Scanned s rest => Scanned (p ++ s) rest
  | Malformed => Malformed
  | OutOfFuel => OutOfFuel
  end.

(** The body of a string, after its opening quote, up to the closing one
    (strict mode: a control character is refused).  A [u] escape takes four
    hexadecimal digits; a high surrogate followed by an escaped low one
    is joined with it. *)
Fixpoint scanstring (s : string) : scan string :=
  match s with
  | EmptyString => Malformed
  | String c r =>
      if N.eqb (code c) 34 then Scanned EmptyString r
      else if N.eqb (code c) 92 then
        match r with
        | EmptyString => Malformed
        | String e r1 =>
            if N.eqb (code e) 117 then
              match r1 with
              | String h1 (String h2 (String h3 (String h4 r2))) =>
                  match hex4 h1 h2 h3 h4 with
                  | None => Malformed
                  | Some uni =>
                      match r2 with
                      | String b (String u (String g1 (String g2 (String g3 (String g4 r3))))) =>
                          if is_high_surrogate uni && N.eqb (code b) 92 && N.eqb (code u) 117 then
                            match hex4 g1 g2 g3 g4 with
                            | None => Malformed
                            | Some uni2 =>
                                if is_low_surrogate uni2 then
                                  prepend
                                    (utf8 (65536 + ((uni - 55296) * 1024 + (uni2 - 56320))))
                                    (scanstring r3)
                                else prepend (utf8 uni) (scanstring r2)
                            end
                          else prepend (utf8 uni) (scanstring r2)
                      | _ => prepend (utf8 uni) (scanstring r2)
                      end
                  end
              | _ => Malformed
              end
            else
              match backslash e with
              | Some ch => prepend (String ch EmptyString) (scanstring r1)
              | None => Malformed
              end
        end
      else if N.ltb (code c) 32 then Malformed
      else prepend (String c EmptyString) (scanstring r)
  end.

(** The longest run of digits [s] starts with: its value, its length
    and what follows it. *)
Fixpoint digits (acc : N) (count : nat) (s : string) : N * nat * string :=
  match s with
  | String c r =>
      if is_digit c then digits (acc * 10 + digit_val c) (S count) r
      else (acc, count, s)
  | EmptyString => (acc, count, s)
  end.

(** The optional groups of the number pattern: each one is taken only
    when it has a digit. *)
Definition fraction (s : string) : option (N * nat * string) :=
  match s with
  | String c r =>
      if N.eqb (code c) 46 then
        match digits 0 0 r with
        | (_, O, _) => None
        | found => Some found
        end
      else None
  | EmptyString => None
  end.

Definition exponent (s : string) : option (Z * string) :=
  match s with
  | String c r =>
      if N.eqb (code c) 101 || N.eqb (code c) 69 then
        let '(neg, r1) :=
          match r with
          | String g r' =>
              if N.eqb (code g) 45 then (true, r')
              else if N.eqb (code g) 43 then (false, r')
              else (false, r)
          | EmptyString => (false, r)
          end in
        match digits 0 0 r1 with
        | (_, O, _) => None
        | (x, _, rest) => Some (if neg then (- Z.of_N x)%Z else Z.of_N x, rest)
        end
      else None
  | EmptyString => None
  end.

(** [int] when the literal has neither fraction nor exponent, [float]
    otherwise. *)
Definition number_tail (neg : bool) (int : N) (s : string) : scan json :=
  match fraction s, exponent s with
  | None, None =>
      Scanned (JInt (if neg then (- Z.of_N int)%Z else Z.of_N int)) s
  | None, Some (x, rest) => Scanned (JFloat (FDec neg int x)) rest
  | Some (f, k, s1), _ =>
      let m := (int * 10 ^ N.of_nat k + f)%N in
      match exponent s1 with
      | None => Scanned (JFloat (FDec neg m (- Z.of_nat k))) s1
      | Some (x, rest) => Scanned (JFloat (FDec neg m (x - Z.of_nat k))) rest
      end
  end.

Definition unsigned_number (neg : bool) (s : string) : scan json :=
  match s with
  | String c r =>
      if N.eqb (code c) 48 then number_tail neg 0 r
      else if is_digit c then
        let '(int, _, rest) := digits (digit_val c) 1 r in
        number_tail neg int rest
      else Malformed
  | EmptyString => Malformed
  end.

Definition match_number (s : string) : scan json :=
  match s with
  | String c r =>
      if N.eqb (code c) 45 then unsigned_number true r
      else unsigned_number false s
  | EmptyString => Malformed
  end.

(** What follows [w] in a text that starts with it. *)
Fixpoint after (w s : string) : option string :=
  match w with
  | EmptyString => Some s
  | String a w' =>
      match s with
      | String b s' => if Ascii.eqb a b then after w' s' else None
      | EmptyString => None
      end
  end.

(** [s[idx:idx + len(w)] == w]: the constant [v], and what follows. *)
Definition word (w : string) (v : json) (s : string) : scan json :=
  match after w s with
  | Some rest => Scanned v rest
  | None => Malformed
  end.

Definition literal (s : string) : scan json :=
  match match_number s with
  | Scanned v rest => Scanned v rest
  | _ =>
      match s with
      | String c _ =>
          if N.eqb (code c) 78 then word "NaN" (JFloat FNaN) s
          else if N.eqb (code c) 73 then word "Infinity" (JFloat (FInf false)) s
          else if N.eqb (code c) 45 then word "-Infinity" (JFloat (FInf true)) s
          else Malformed
      | EmptyString => Malformed
      end
  end.

Fixpoint scan_once (fuel : nat) (s : string) : scan json :=
  match fuel with
  | O => OutOfFuel
  | S fuel' =>
      match s with
      | EmptyString => Malformed
      | String c r =>
          if N.eqb (code c) 34 then
            match scanstring r with
            | Scanned str rest => Scanned (JString str) rest
            | Malformed => Malformed
            | OutOfFuel => OutOfFuel
            end
          else if N.eqb (code c) 123 then
            match skip_ws r with
            | String d r' =>
                if N.eqb (code d) 125 then Scanned (JObject []) r'
                else if N.eqb (code d) 34 then object_loop fuel' [] r'
                else Malformed
            | EmptyString => Malformed
            end
          else if N.eqb (code c) 91 then
            match skip_ws r with
            | String d r' =>
                if N.eqb (code d) 93 then Scanned (JArray []) r'
                else array_loop fuel' [] (skip_ws r)
            | EmptyString => Malformed
            end
          else if N.eqb (code c) 110 then word "null" JNull s
          else if N.eqb (code c) 116 then word "true" (JBool true) s
          else if N.eqb (code c) 102 then word "false" (JBool false) s
          else literal s
      end
  end

(** The items of an array, from the first character of an item; [acc]
    holds the items read so far, last first. *)
with array_loop (fuel : nat) (acc : list json) (s : string) : scan json :=
  match fuel with
  | O => OutOfFuel
  | S fuel' =>
      match scan_once fuel' s with
      | Scanned v rest =>
          match skip_ws rest with
          | String d r' =>
              if N.eqb (code d) 93 then Scanned (JArray (rev (v :: acc))) r'
              else if N.eqb (code d) 44 then array_loop fuel' (v :: acc) (skip_ws r')
              else Malformed
          | EmptyString => Malformed
          end
      | Malformed => Malformed
      | OutOfFuel => OutOfFuel
      end
  end

(** The members of an object, from just after the opening quote of a
    key; [acc] is the [dict] built so far. *)
with object_loop (fuel : nat) (acc : list (string * json)) (s : string) : scan json :=
  match fuel with
  | O => OutOfFuel
  | S fuel' =>
      match scanstring s with
      | Scanned key rest =>
          match skip_ws rest with
          | String d r' =>
              if N.eqb (code d) 58 then
                match scan_once fuel' (skip_ws r') with
                | Scanned v rest' =>
                    match skip_ws rest' with
                    | String d' r'' =>
                        if N.eqb (code d') 125 then
                          Scanned (JObject (Py.dict_set key v acc)) r''
                        else if N.eqb (code d') 44 then
                          match skip_ws r'' with
                          | String q r3 =>
                              if N.eqb (code q) 34 then
                                object_loop fuel' (Py.dict_set key v acc) r3
                              else Malformed
                          | EmptyString => Malformed
                          end
                        else Malformed
                    | EmptyString => Malformed
                    end
                | Malformed => Malformed
                | OutOfFuel => OutOfFuel
                end
              else Malformed
          | EmptyString => Malformed
          end
      | Malformed => Malformed
      | OutOfFuel => OutOfFuel
      end
  end.

(** [JSONDecoder.decode]: one value between optional whitespace, and
    nothing after it. *)
Definition decode (fuel : nat) (s : string) : scan json :=
  match scan_once fuel (skip_ws s) with
  | Scanned v rest =>
      match skip_ws rest with
      | EmptyString => Scanned v EmptyString
      | String _ _ => Malformed
      end
  | Malformed => Malformed
  | OutOfFuel => OutOfFuel
  end.

(** Enough fuel for any text: every call of a loop and every nested
    value consumes a character. *)
Definition fuel_for (s : string) : nat := (2 * String.length s + 2)%nat.

(** A scan of [s] that went well: it did not run out of fuel, and a value
    it read took at least one character of [s]. *)
Definition consumes {A : Type} (s : string) (r : scan A) : Prop :=
  match r with
  | Scanned _ rest => (String.length rest < String.length s)%nat
  | Malformed => True
  | OutOfFuel => False
  end.

End Decoder.

(** [json.loads(s)] *)
Definition json_loads (s : string) : result json :=
  match Decoder.decode (Decoder.fuel_for s) s with
  | Decoder.Scanned v _ => Ok v
  | _ => Err JSONDecodeError
  end.


(* ================================================================== *)
(** ** Programs and their runs *)

(** What the script does, as a tree: it returns, runs a shell command and
    goes on with the answer ([None] when the command fails), writes to
    standard output, raises, or leaves through [sys.exit]. *)
Inductive prog (A : Type) : Type :=
| Ret (a : A)
| Shell (command : string) (k : option string -> prog A)
| Emit (text : string) (k : prog A)
| Raise (e : exn)
| SysExit (code : Z).
Arguments Ret {A} a.
Arguments Shell {A} command k.
Arguments Emit {A} text k.
Arguments Raise {A} e.
Arguments SysExit {A} code.

Fixpoint bind {A B : Type} (m : prog A) (f : A -> prog B) : prog B :=
  match m with
  | Ret a => f a
  | Shell c k => Shell c (fun r => bind (k r) f)
  | Emit t k => Emit t (bind k f)
  | Raise e => Raise e
  | SysExit c => SysExit c
  end.

Declare Scope prog_scope.
Delimit Scope prog_scope with prog.
Notation "x <- m ;; k" := (bind m (fun x => k))
  (at level 61, m at next level, right associativity) : prog_scope.
Notation "m ;; k" := (bind m (fun _ => k))
  (at level 61, right associativity) : prog_scope.
Local Open Scope prog_scope.

(** A value or an exception of a computation that touches nothing. *)
Definition lift {A : Type} (r : result A) : prog A :=
  match r with
  | Ok a => Ret a
  | Err e => Raise e
  end.

Definition exn_eqb (a b : exn) : bool :=
  match a, b with
  | JSONDecodeError, JSONDecodeError => true
  | AttributeError, AttributeError => true
  | TypeError, TypeError => true
  | KeyError, KeyError => true
  | ValueError, ValueError => true
  | RecursionError, RecursionError => true
  | IndexError, IndexError => true
  | _, _ => false
  end.

(** [try: body  except e: handler]: the handler takes over for [e] alone. *)
Definition try_except {A : Type} (body : result A) (e : exn) (handler : result A)
  : result A :=
  match body with
  | Ok a => Ok a
  | Err e' => if exn_eqb e' e then handler else Err e'
  end.

Definition and_then {A B : Type} (r : result A) (f : A -> result B) : result B :=
  match r with
  | Ok a => f a
  | Err e => Err e
  end.

(** One interaction of a run. *)
Inductive event : Set :=
| Called (command : string)
| Wrote (text : string).

Inductive outcome (A : Type) : Type :=
| Returned (a : A)
| Raised (e : exn)
| Exited (code : Z).
Arguments Returned {A} a.
Arguments Raised {A} e.
Arguments Exited {A} code.

(** The world answers a command line with [None] (non-zero exit status) or
    with the text the command wrote. *)
Definition world : Type := string -> option string.

Fixpoint run {A : Type} (gh : world) (p : prog A) : list event * outcome A :=
  match p with
  | Ret a => ([], Returned a)
  | Shell c k => let (t, o) := run gh (k (gh c)) in (Called c :: t, o)
  | Emit s k => let (t, o) := run gh k in (Wrote s :: t, o)
  | Raise e => ([], Raised e)
  | SysExit c => ([], Exited c)
  end.

Definition trace {A : Type} (gh : world) (p : prog A) : list event := fst (run gh p).
Definition result_of {A : Type} (gh : world) (p : prog A) : outcome A := snd (run gh p).

(** The commands of a trace, in the order they were issued. *)
Fixpoint commands (t : list event) : list string :=
  match t with
  | [] => []
  | Called c :: t' => c :: commands t'
  | Wrote _ :: t' => commands t'
  end.

(** The pieces written to standard output, in order. *)
Fixpoint written (t : list event) : list string :=
  match t with
  | [] => []
  | Called _ :: t' => written t'
  | Wrote s :: t' => s :: written t'
  end.

(** Exit status of the process: 0 when [main] returns, the argument of
    [sys.exit], 1 after an uncaught exception. *)
Definition exit_status {A : Type} (o : outcome A) : Z :=
  match o with
  | Returned _ => 0
  | Raised _ => 1
  | Exited c => c
  end.

(* ================================================================== *)
(** ** The scanner *)

Definition LF : string := String (ascii_of_nat 10) EmptyString.
Definition CR : string := String (ascii_of_nat 13) EmptyString.

(** [print(s)] and [sys.stdout.write(s)] ([flush] changes nothing that is
    observed here).  A write is taken to succeed. *)
Definition print (s : string) : prog unit := Emit (s ++ LF) (Ret tt).
Definition write (s : string) : prog unit := Emit s (Ret tt).

(** [run_command]: the output without surrounding whitespace, [None] when
    the command fails ([CalledProcessError] is the one exception the
    function catches, and the one the world can answer with). *)
Definition run_command (command : string) : prog (option string) :=
  Shell command (fun r => Ret (option_map Text.strip r)).

Definition list_command (org_name : string) : string :=
  "gh repo list " ++ org_name ++ " --limit 1000 --json name".

Definition branch_command (org_name repo_name branch : string) : string :=
  "gh api repos/" ++ org_name ++ "/" ++ repo_name ++ "/branches/" ++ branch.

Definition protection_command (org_name repo_name branch_name : string) : string :=
  "gh api repos/" ++ org_name ++ "/" ++ repo_name ++ "/branches/" ++ branch_name
  ++ "/protection".

Definition signatures_command (org_name repo_name branch_name : string) : string :=
  "gh api repos/" ++ org_name ++ "/" ++ repo_name ++ "/branches/" ++ branch_name
  ++ "/protection/required_signatures".

Definition not_protected (branch : string) : string :=
  "'" ++ branch ++ "' branch is not protected".

Definition signing_not_required (branch : string) : string :=
  "Commit signing not required for '" ++ branch ++ "' branch".

Definition no_branch : string := "No main or master branch found".

Definition clear_line : string := CR ++ Text.spaces 80 ++ CR.

(** [check_branch_protection]: [protection is not None]. *)
Definition check_branch_protection (org_name repo_name branch_name : string)
  : prog bool :=
  protection <- run_command (protection_command org_name repo_name branch_name) ;;
  Ret (match protection with Some _ => true | None => false end).

(** What [run_command] hands to an [if]: the command succeeded and wrote
    more than whitespace. *)
Definition answered (gh : world) (command : string) : bool :=
  Py.truthy_output (option_map Text.strip (gh command)).

(** The test of the branch loop, [if branch_exists:]. *)
Definition branch_present (gh : world) (org_name repo_name branch : string) : bool :=
  answered gh (branch_command org_name repo_name branch).

(** The primary branch: [main], or [master] when [main] is not there. *)
Definition primary_branch (gh : world) (org_name repo_name : string) : option string :=
  if branch_present gh org_name repo_name "main" then Some "main"
  else if branch_present gh org_name repo_name "master" then Some "master"
  else None.

(** The protection call succeeds. *)
Definition protected (gh : world) (org_name repo_name branch : string) : bool :=
  match gh (protection_command org_name repo_name branch) with
  | Some _ => true
  | None => false
  end.

(** A world given by the commands it answers; it fails every other one. *)
Fixpoint answers (table : list (string * string)) : world :=
  fun command =>
    match table with
    | [] => None
    | (c, text) :: others =>
        if String.eqb command c then Some text else answers others command
    end.

Definition quote : string := String (ascii_of_nat 34) EmptyString.

(** The text [{"name": "n"}] and a listing of such entries. *)
Definition entry (n : string) : string :=
  "{" ++ quote ++ "name" ++ quote ++ ":" ++ quote ++ n ++ quote ++ "}".

Definition listing (names : list string) : string :=
  "[" ++ String.concat "," (map entry names) ++ "]" ++ LF.

(** The text [{"enabled": v}]. *)
Definition enabled (v : string) : string :=
  "{" ++ quote ++ "enabled" ++ quote ++ ":" ++ v ++ "}".

(** *** Worlds of the examples *)

(** The organisation of the scenario: [A] has a protected [main] with
    required signatures, [B] an unprotected [main], [C] neither [main] nor
    [master]. *)
Definition acme : world :=
  answers
    [ (list_command "acme", listing ["A"; "B"; "C"]);
      (branch_command "acme" "A" "main", "{}");
      (protection_command "acme" "A" "main", "{}");
      (signatures_command "acme" "A" "main", enabled "true");
      (branch_command "acme" "B" "main", "{}") ].

(** An organisation without repositories: the listing is an empty JSON
    list. *)
Definition empty_org : world :=
  answers [ (list_command "empty-org", "[]" ++ LF) ].

(** The protection call succeeds and writes nothing. *)
Definition blank_protection : world :=
  answers [ (protection_command "acme" "A" "main", EmptyString) ].

(** The probe of [main] succeeds and writes nothing. *)
Definition blank_probe : world :=
  answers [ (branch_command "acme" "A" "main", EmptyString) ].

(** The signatures call of a protected [main] answers [null]. *)
Definition null_signatures : world :=
  answers
    [ (list_command "acme", listing ["A"]);
      (branch_command "acme" "A" "main", "{}");
      (protection_command "acme" "A" "main", "{}");
      (signatures_command "acme" "A" "main", "null") ].

(** The signatures call answers with the string [false] for [enabled]. *)
Definition quoted_false : world :=
  answers
    [ (branch_command "acme" "A" "main", "{}");
      (protection_command "acme" "A" "main", "{}");
      (signatures_command "acme" "A" "main", enabled (quote ++ "false" ++ quote)) ].

(** [sys.argv[0]] of the examples. *)
Definition script : string := "find-insecure-gh-repos.py".

(** [str()] of a [float], a [list] or a [dict] in the examples: every
    name of their listings is a string, so it is never asked for. *)
Definition no_repr (v : json) : string := EmptyString.

(** *** The lines of the report *)

(** The progress line of the [i]-th element of the listing. *)
Definition progress_line (total_repos i : nat) (repo_name : string) : string :=
  CR ++ "Processing: " ++ Text.str_of_nat i ++ "/" ++ Text.str_of_nat total_repos
  ++ " (" ++ repo_name ++ ")" ++ Text.spaces 20.

(** The line that names a repository with issues. *)
Definition report_header (org_name repo_name : string) : string :=
  LF ++ org_name ++ "/" ++ repo_name ++ ":".

Definition issue_line (issue : string) : string := "  - " ++ issue.

(** What the loop writes about a repository once its issues are known:
    nothing without an issue, else the cleared line, the header and one
    line for each issue. *)
Definition report (org_name repo_name : string) (issues : list string) : list event :=
  match issues with
  | [] => []
  | _ :: _ =>
      Wrote clear_line
      :: Wrote (report_header org_name repo_name ++ LF)
      :: map (fun issue => Wrote (issue_line issue ++ LF)) issues
  end.

Definition is_issue_line (s : string) : bool := prefix "  - " s.

Definition is_progress_line (s : string) : bool := prefix (CR ++ "Processing: ") s.

(** The command lines the script builds for a repository name: the probe,
    the protection and the signatures template, filled with the
    organisation, that name and the branch [main] or [master]. *)
Definition repository_command (org_name repo_name command : string) : Prop :=
  exists branch,
    (branch = "main" \/ branch = "master")
    /\ (command = branch_command org_name repo_name branch
        \/ command = protection_command org_name repo_name branch
        \/ command = signatures_command org_name repo_name branch).

(** *** More worlds of the examples *)

(** Every command fails. *)
Definition offline : world := answers [].

(** The listing call succeeds with a page that is no JSON. *)
Definition garbled_listing : world :=
  answers [ (list_command "acme", "<html>Bad gateway</html>" ++ LF) ].

(** A protected [main] whose signatures are not required. *)
Definition unsigned : world :=
  answers
    [ (branch_command "acme" "A" "main", "{}");
      (protection_command "acme" "A" "main", "{}");
      (signatures_command "acme" "A" "main", enabled "false") ].

(** A listing whose second element has no name. *)
Definition nameless : world :=
  answers
    [ (list_command "acme", "[" ++ entry "A" ++ ",{}]" ++ LF);
      (branch_command "acme" "A" "main", "{}");
      (protection_command "acme" "A" "main", "{}");
      (signatures_command "acme" "A" "main", enabled "true") ].

Section Scanner.

(** [json.loads]. *)
Variable loads : string -> result json.

(** [str(v)] for a [float], a [list] or a [dict]. *)
Variable repr_of : json -> string.

(** What an f-string puts for [{v}]: [str(v)]. *)
Definition format (v : json) : string :=
  match v with
  | JString s => s
  | JNull => "None"
  | JBool true => "True"
  | JBool false => "False"
  | JInt z => NilZero.string_of_int (Z.to_int z)
  | JFloat _ | JArray _ | JObject _ => repr_of v
  end.

(** [json.loads] on what [run_command] returned; it takes no [None]. *)
Definition loads_output (output : option string) : result json :=
  match output with
  | Some text => loads text
  | None => Err TypeError
  end.

(** [check_required_signatures]: the [enabled] entry of the answer, [False]
    without an answer or when it is not JSON.  What [get] raises is not
    caught. *)
Definition check_required_signatures (org_name repo_name branch_name : string)
  : prog json :=
  signatures <- run_command (signatures_command org_name repo_name branch_name) ;;
  match signatures with
  | Some text =>
      if Text.nonempty text then
        lift (try_except
                (and_then (loads text) (fun v => Py.get v "enabled" (JBool false)))
                JSONDecodeError
                (Ok (JBool false)))
      else Ret (JBool false)
  | None => Ret (JBool false)
  end.

(** The loop over [['main', 'master']] of one repository; [issues] is the
    list the script appends to.  The [else] of the [for] is the end of the
    list of branches. *)
Fixpoint branch_loop (org_name repo_name : string) (branches : list string)
  (issues : list string) : prog (list string) :=
  match branches with
  | [] => Ret (issues ++ [no_branch])%list
  | branch :: others =>
      branch_exists <- run_command (branch_command org_name repo_name branch) ;;
      if Py.truthy_output branch_exists then
        is_protected <- check_branch_protection org_name repo_name branch ;;
        if negb is_protected then
          Ret (issues ++ [not_protected branch])%list
        else
          signatures_required <- check_required_signatures org_name repo_name branch ;;
          if negb (Py.truthy signatures_required) then
            Ret (issues ++ [signing_not_required branch])%list
          else Ret issues
      else branch_loop org_name repo_name others issues
  end.

(** The issues of one repository: the branch loop from an empty list. *)
Definition check_repository (org_name repo_name : string) : prog (list string) :=
  branch_loop org_name repo_name ["main"; "master"] [].

Fixpoint print_issues (issues : list string) : prog unit :=
  match issues with
  | [] => Ret tt
  | issue :: others => print ("  - " ++ issue) ;; print_issues others
  end.

(** One turn of the loop over the repositories, for the [i]-th element
    [repo]; it returns the new count. *)
Definition scan_repository (org_name : string) (total_repos i : nat) (repo : json)
  (non_compliant_count : nat) : prog nat :=
  repo_name <- lift (Py.getitem repo "name") ;;
  write (CR ++ "Processing: " ++ Text.str_of_nat i ++ "/" ++ Text.str_of_nat total_repos
         ++ " (" ++ format repo_name ++ ")" ++ Text.spaces 20) ;;
  issues <- check_repository org_name (format repo_name) ;;
  match issues with
  | [] => Ret non_compliant_count
  | _ :: _ =>
      write clear_line ;;
      print (LF ++ org_name ++ "/" ++ format repo_name ++ ":") ;;
      print_issues issues ;;
      Ret (S non_compliant_count)
  end.

(** [for i, repo in enumerate(repos, 1)], from index [i]. *)
Fixpoint repo_loop (org_name : string) (total_repos i : nat) (repos : list json)
  (non_compliant_count : nat) : prog nat :=
  match repos with
  | [] => Ret non_compliant_count
  | repo :: others =>
      count <- scan_repository org_name total_repos i repo non_compliant_count ;;
      repo_loop org_name total_repos (S i) others count
  end.

Definition all_meet : string := LF ++ "All repositories meet the requirements.".

Definition total_line (non_compliant_count total_repos : nat) : string :=
  LF ++ "Total: " ++ Text.str_of_nat non_compliant_count
  ++ " non-compliant repositories out of " ++ Text.str_of_nat total_repos.

Definition summary (non_compliant_count total_repos : nat) : string :=
  if Nat.eqb non_compliant_count 0 then all_meet
  else total_line non_compliant_count total_repos.

Definition usage (program : string) : string :=
  "Usage: " ++ program ++ " <organization-name>".

Definition fetching (org_name : string) : string :=
  "Fetching repositories for organization: " ++ org_name ++ "...".

Definition no_repositories : string :=
  "No repositories found or error accessing the organization.".

Definition found (total_repos : nat) : string :=
  "Found " ++ Text.str_of_nat total_repos
  ++ " repositories. Checking compliance for each repository...".

Definition not_meeting : string := LF ++ "Repositories not meeting requirements:".

(** [main], for [sys.argv = argv].  It returns the final
    [non_compliant_count].  With another length than 2 the usage line is
    built from [sys.argv[0]], which raises [IndexError] on an empty
    list before anything is written. *)
Definition main (argv : list string) : prog nat :=
  match argv with
  | [_; org_name] =>
      print (fetching org_name) ;;
      repos_json <- run_command (list_command org_name) ;;
      if negb (Py.truthy_output repos_json) then
        print no_repositories ;;
        SysExit 1
      else
        repos <- lift (loads_output repos_json) ;;
        total_repos <- lift (Py.len repos) ;;
        print (found total_repos) ;;
        print not_meeting ;;
        non_compliant_count <- repo_loop org_name total_repos 1 (Py.iter repos) 0 ;;
        write clear_line ;;
        print (summary non_compliant_count total_repos) ;;
        Ret non_compliant_count
  | [] => Raise IndexError
  | program :: _ =>
      print (usage program) ;;
      SysExit 1
  end.

(** The issues the script collects for a repository, none when its check
    raises. *)
Definition issues_of (gh : world) (org_name repo_name : string) : list string :=
  match result_of gh (check_repository org_name repo_name) with
  | Returned issues => issues
  | _ => []
  end.

Definition non_compliant (gh : world) (org_name repo_name : string) : bool :=
  match issues_of gh org_name repo_name with
  | [] => false
  | _ :: _ => true
  end.

(** The name the script uses for an element of the listing. *)
Definition name_of (repo : json) : string :=
  match Py.getitem repo "name" with
  | Ok v => format v
  | Err _ => EmptyString
  end.

Definition count_non_compliant (gh : world) (org_name : string) (repos : list json)
  : nat :=
  List.length (filter (fun repo => non_compliant gh org_name (name_of repo)) repos).

(** The signatures check of a branch returns a true value. *)
Definition signatures_required (gh : world) (org_name repo_name branch : string)
  : bool :=
  match result_of gh (check_required_signatures org_name repo_name branch) with
  | Returned v => Py.truthy v
  | _ => false
  end.

(** The run of the branch loop once it has found [branch]: the calls it
    makes and the issues it ends with, from the list [issues]. *)
Definition branch_verdict (gh : world) (org_name repo_name branch : string)
  (issues : list string)
  : list event * outcome (list string) :=
  if protected gh org_name repo_name branch then
    ( [Called (protection_command org_name repo_name branch);
       Called (signatures_command org_name repo_name branch)],
      match result_of gh (check_required_signatures org_name repo_name branch) with
      | Returned v =>
          if Py.truthy v then Returned issues
          else Returned (issues ++ [signing_not_required branch])%list
      | Raised e => Raised e
      | Exited c => Exited c
      end )
  else
    ( [Called (protection_command org_name repo_name branch)],
      Returned (issues ++ [not_protected branch])%list ).

(** The probes of the branch loop: [master] is asked for only when [main]
    is not there. *)
Definition probes (gh : world) (org_name repo_name : string) : list event :=
  if branch_present gh org_name repo_name "main" then
    [Called (branch_command org_name repo_name "main")]
  else
    [Called (branch_command org_name repo_name "main");
     Called (branch_command org_name repo_name "master")].

(** A value that is a [dict]. *)
Definition is_object (v : json) : bool :=
  match v with
  | JObject _ => true
  | _ => false
  end.

(** An element of the listing that the loop can handle: it has a name and
    the check of that name does not raise. *)
Definition checkable (gh : world) (org_name : string) (repo : json) : Prop :=
  exists v,
    Py.getitem repo "name" = Ok v
    /\ forall e, result_of gh (check_repository org_name (format v)) <> Raised e.


(** The elements of the listing the loop goes through: those of the decoded
    answer, none when the listing call has no answer or its answer does not
    decode. *)
Definition listed (gh : world) (org_name : string) : list json :=
  if answered gh (list_command org_name) then
    match loads_output (option_map Text.strip (gh (list_command org_name))) with
    | Ok repos => Py.iter repos
    | Err _ => []
    end
  else [].

(** A command line built from the listing of an organisation: the listing
    command itself, or a command line of the name of an element of the
    listing.  It says how the text of the line is put together, not what
    a shell makes of it: the names are inserted as they are. *)
Definition built_from_listing (gh : world) (org_name command : string) : Prop :=
  command = list_command org_name
  \/ exists repo v,
       In repo (listed gh org_name)
       /\ Py.getitem repo "name" = Ok v
       /\ repository_command org_name (format v) command.

(** The issue lines of the elements [repos]: one for each issue the script
    collects for an element, in the order of the elements. *)
Definition issue_lines (gh : world) (org_name : string) (repos : list json)
  : list string :=
  flat_map
    (fun repo =>
       map (fun issue => issue_line issue ++ LF)
           (issues_of gh org_name (name_of repo)))
    repos.

(** The progress lines of the elements [repos], numbered from [i]. *)
Fixpoint progress_lines (total_repos i : nat) (repos : list json) : list string :=
  match repos with
  | [] => []
  | repo :: others =>
      progress_line total_repos i (name_of repo)
      :: progress_lines total_repos (S i) others
  end.

(* ================================================================== *)
(** ** Runs of composed programs *)

Lemma length_append (a b : string) :
  String.length (a ++ b) = (String.length a + String.length b)%nat.
Proof.
  induction a as [|c a IH]; simpl; [reflexivity | now rewrite IH].
Qed.

(** A run of [bind m f] is a run of [m] followed, when [m] returns, by a
    run of [f] on its value. *)
Lemma run_bind {A B : Type} (gh : world) (m : prog A) (f : A -> prog B) :
  run gh (bind m f) =
  match run gh m with
  | (t, Returned a) => let (t', o) := run gh (f a) in ((t ++ t')%list, o)
  | (t, Raised e) => (t, Raised e)
  | (t, Exited c) => (t, Exited c)
  end.
Proof.
  induction m as [a | c k IH | s k IH | e | c]; simpl.
  - now destruct (run gh (f a)).
  - rewrite IH. destruct (run gh (k (gh c))) as [t [a | e | z]]; try reflexivity.
    now destruct (run gh (f a)).
  - rewrite IH. destruct (run gh k) as [t [a | e | z]]; try reflexivity.
    now destruct (run gh (f a)).
  - reflexivity.
  - reflexivity.
Qed.

Lemma commands_app (t t' : list event) :
  commands (t ++ t') = (commands t ++ commands t')%list.
Proof.
  induction t as [|[c | s] t IH]; simpl; [reflexivity | now rewrite IH | exact IH].
Qed.

Lemma written_app (t t' : list event) :
  written (t ++ t') = (written t ++ written t')%list.
Proof.
  induction t as [|[c | s] t IH]; simpl; [reflexivity | exact IH | now rewrite IH].
Qed.

(** Two worlds that answer alike the commands a program issues in the
    first one give it the same run. *)
Lemma run_agree {A : Type} (gh1 gh2 : world) (p : prog A) :
  (forall c, In c (commands (trace gh1 p)) -> gh1 c = gh2 c) ->
  run gh1 p = run gh2 p.
Proof.
  unfold trace.
  induction p as [a | c k IH | s k IH | e | c]; simpl; intros H; try reflexivity.
  - assert (E : gh1 c = gh2 c).
    { apply H. destruct (run gh1 (k (gh1 c))); simpl. now left. }
    rewrite <- E. rewrite <- (IH (gh1 c)); [reflexivity |].
    intros c' Hc'. apply H.
    destruct (run gh1 (k (gh1 c))); simpl in *. now right.
  - rewrite <- IH; [reflexivity |].
    intros c' Hc'. apply H. destruct (run gh1 k); simpl in *. exact Hc'.
Qed.

Lemma run_run_command (gh : world) (command : string) :
  run gh (run_command command) =
  ([Called command], Returned (option_map Text.strip (gh command))).
Proof. reflexivity. Qed.

(* ================================================================== *)
(** ** Runs of the checks *)

Lemma run_check_branch_protection gh org_name repo_name branch :
  run gh (check_branch_protection org_name repo_name branch) =
  ([Called (protection_command org_name repo_name branch)],
   Returned (protected gh org_name repo_name branch)).
Proof.
  unfold check_branch_protection, protected, run_command. simpl.
  now destruct (gh (protection_command org_name repo_name branch)).
Qed.

Lemma trace_check_required_signatures gh org_name repo_name branch :
  trace gh (check_required_signatures org_name repo_name branch) =
  [Called (signatures_command org_name repo_name branch)].
Proof.
  unfold trace, check_required_signatures, run_command. simpl.
  destruct (gh (signatures_command org_name repo_name branch)) as [text|]; simpl;
    [| reflexivity].
  destruct (Text.nonempty (Text.strip text)); [| reflexivity].
  match goal with |- context [lift ?r] => now destruct r end.
Qed.

Lemma run_check_required_signatures gh org_name repo_name branch :
  run gh (check_required_signatures org_name repo_name branch) =
  ([Called (signatures_command org_name repo_name branch)],
   result_of gh (check_required_signatures org_name repo_name branch)).
Proof.
  rewrite <- (trace_check_required_signatures gh). unfold trace, result_of.
  now destruct (run gh _).
Qed.

Lemma run_branch_loop_cons gh org_name repo_name branch others issues :
  run gh (branch_loop org_name repo_name (branch :: others) issues) =
  if branch_present gh org_name repo_name branch then
    let (t, o) := branch_verdict gh org_name repo_name branch issues in
    (Called (branch_command org_name repo_name branch) :: t, o)
  else
    let (t, o) := run gh (branch_loop org_name repo_name others issues) in
    (Called (branch_command org_name repo_name branch) :: t, o).
Proof.
  unfold branch_present, answered, branch_verdict.
  cbn [branch_loop]. rewrite run_bind, run_run_command.
  destruct (Py.truthy_output _); [| now destruct (run gh _)].
  rewrite run_bind, run_check_branch_protection.
  destruct (protected gh org_name repo_name branch); cbn [negb]; [| reflexivity].
  rewrite run_bind, run_check_required_signatures.
  destruct (result_of gh _) as [v | e | c]; try reflexivity.
  now destruct (Py.truthy v).
Qed.

(** The whole run of the check of one repository. *)
Lemma run_check_repository gh org_name repo_name :
  run gh (check_repository org_name repo_name) =
  match primary_branch gh org_name repo_name with
  | Some branch =>
      let (t, o) := branch_verdict gh org_name repo_name branch [] in
      ((probes gh org_name repo_name ++ t)%list, o)
  | None => (probes gh org_name repo_name, Returned [no_branch])
  end.
Proof.
  unfold check_repository, primary_branch, probes.
  rewrite run_branch_loop_cons.
  destruct (branch_present gh org_name repo_name "main").
  - now destruct (branch_verdict gh org_name repo_name "main" []).
  - rewrite run_branch_loop_cons.
    destruct (branch_present gh org_name repo_name "master").
    + now destruct (branch_verdict gh org_name repo_name "master" []).
    + reflexivity.
Qed.

(** *** The command lines are told apart by their lengths *)

Lemma length_branch_command org_name repo_name branch :
  String.length (branch_command org_name repo_name branch) =
  (24 + String.length org_name + String.length repo_name + String.length branch)%nat.
Proof.
  unfold branch_command. repeat rewrite length_append. simpl. lia.
Qed.

Lemma length_protection_command org_name repo_name branch :
  String.length (protection_command org_name repo_name branch) =
  (35 + String.length org_name + String.length repo_name + String.length branch)%nat.
Proof.
  unfold protection_command. repeat rewrite length_append. simpl. lia.
Qed.

Lemma length_signatures_command org_name repo_name branch :
  String.length (signatures_command org_name repo_name branch) =
  (55 + String.length org_name + String.length repo_name + String.length branch)%nat.
Proof.
  unfold signatures_command. repeat rewrite length_append. simpl. lia.
Qed.

Lemma primary_branch_name gh org_name repo_name branch :
  primary_branch gh org_name repo_name = Some branch ->
  branch = "main" \/ branch = "master".
Proof.
  unfold primary_branch.
  destruct (branch_present gh org_name repo_name "main"); [intros [= <-]; now left |].
  destruct (branch_present gh org_name repo_name "master"); [intros [= <-]; now right |].
  discriminate.
Qed.

Lemma signatures_not_a_probe org_name repo_name b branch :
  branch = "main" \/ branch = "master" ->
  signatures_command org_name repo_name b <> branch_command org_name repo_name branch.
Proof.
  intros Hb E. apply (f_equal String.length) in E.
  rewrite length_signatures_command, length_branch_command in E.
  destruct Hb as [-> | ->]; simpl in E; lia.
Qed.

Lemma signatures_not_protection org_name repo_name b branch :
  branch = "main" \/ branch = "master" ->
  signatures_command org_name repo_name b <> protection_command org_name repo_name branch.
Proof.
  intros Hb E. apply (f_equal String.length) in E.
  rewrite length_signatures_command, length_protection_command in E.
  destruct Hb as [-> | ->]; simpl in E; lia.
Qed.

Lemma commands_probes gh org_name repo_name c :
  In c (commands (probes gh org_name repo_name)) ->
  c = branch_command org_name repo_name "main"
  \/ c = branch_command org_name repo_name "master".
Proof.
  unfold probes. destruct (branch_present gh org_name repo_name "main"); simpl;
    intuition congruence.
Qed.

(* ================================================================== *)
(** ** The checks of one repository *)

Lemma branch_present_spec gh org_name repo_name branch :
  branch_present gh org_name repo_name branch = true <->
  exists text, gh (branch_command org_name repo_name branch) = Some text
               /\ Text.strip text <> EmptyString.
Proof.
  unfold branch_present, answered.
  destruct (gh (branch_command org_name repo_name branch)) as [text|]; simpl.
  - destruct (Text.strip text) eqn:E; simpl.
    + split; [discriminate | intros (t & [= <-] & H); now rewrite E in H].
    + split; [intros _; exists text; split; [reflexivity | now rewrite E] | reflexivity].
  - split; [discriminate | intros (t & H & _); discriminate].
Qed.

(** C2, as amended.  [check_branch_protection] issues the protection call
    and returns [True] exactly when that call succeeds, whatever it wrote
    (an empty answer included); when the call fails it returns [False] and
    raises nothing. *)
Theorem check_branch_protection_true_iff_call_succeeds
  (gh : world) (org_name repo_name branch : string) :
  exists b : bool,
    run gh (check_branch_protection org_name repo_name branch) =
    ([Called (protection_command org_name repo_name branch)], Returned b)
    /\ (b = true <->
        exists text, gh (protection_command org_name repo_name branch) = Some text)
    /\ (b = false <-> gh (protection_command org_name repo_name branch) = None).
Proof.
  exists (protected gh org_name repo_name branch).
  split; [apply run_check_branch_protection |].
  unfold protected.
  destruct (gh (protection_command org_name repo_name branch)) as [text|].
  - split; split; try discriminate; try reflexivity.
    + intros _. now exists text.
  - split; split; try discriminate; try reflexivity.
    intros (text & H). discriminate.
Qed.

(** C3, as amended.  The branch loop probes [main] first.  A probe counts
    as the branch being there when the call succeeds and writes more than
    whitespace.  With [main] there, its protection is checked next and
    [master] is never probed; without it [master] is probed second and, when
    it is there, its protection is checked next; with neither, the two
    probes are the only calls and the issues are exactly the one that says
    so. *)
Theorem primary_branch_resolution (gh : world) (org_name repo_name : string) :
  let t := commands (trace gh (check_repository org_name repo_name)) in
  hd_error t = Some (branch_command org_name repo_name "main")
  /\ (forall branch,
        branch_present gh org_name repo_name branch = true <->
        exists text, gh (branch_command org_name repo_name branch) = Some text
                     /\ Text.strip text <> EmptyString)
  /\ if branch_present gh org_name repo_name "main" then
       (exists rest,
           t = branch_command org_name repo_name "main"
               :: protection_command org_name repo_name "main" :: rest)
       /\ ~ In (branch_command org_name repo_name "master") t
     else if branch_present gh org_name repo_name "master" then
       exists rest,
         t = branch_command org_name repo_name "main"
             :: branch_command org_name repo_name "master"
             :: protection_command org_name repo_name "master" :: rest
     else
       run gh (check_repository org_name repo_name) =
       ([Called (branch_command org_name repo_name "main");
         Called (branch_command org_name repo_name "master")],
        Returned [no_branch]).
Proof.
  cbv zeta. unfold trace. rewrite run_check_repository.
  unfold primary_branch, probes, branch_verdict.
  split; [| split; [intros branch; apply branch_present_spec |]].
  - destruct (branch_present gh org_name repo_name "main");
      [| destruct (branch_present gh org_name repo_name "master")];
      try destruct (protected gh org_name repo_name _); reflexivity.
  - destruct (branch_present gh org_name repo_name "main").
    + assert (N1 : branch_command org_name repo_name "master"
                   <> branch_command org_name repo_name "main").
      { intros E. apply (f_equal String.length) in E.
        rewrite !length_branch_command in E. simpl in E. lia. }
      assert (N2 : branch_command org_name repo_name "master"
                   <> protection_command org_name repo_name "main").
      { intros E. apply (f_equal String.length) in E.
        rewrite length_branch_command, length_protection_command in E.
        simpl in E. lia. }
      assert (N3 : branch_command org_name repo_name "master"
                   <> signatures_command org_name repo_name "main").
      { intros E. apply (f_equal String.length) in E.
        rewrite length_branch_command, length_signatures_command in E.
        simpl in E. lia. }
      destruct (protected gh org_name repo_name "main"); simpl.
      * split; [eexists; reflexivity | intuition congruence].
      * split; [eexists; reflexivity | intuition congruence].
    + destruct (branch_present gh org_name repo_name "master"); [| reflexivity].
      destruct (protected gh org_name repo_name "master"); simpl;
        eexists; reflexivity.
Qed.

(** C4.  When the primary branch is there and its protection call fails,
    the issues are exactly the one that names the branch as not protected,
    and no signatures command, of any branch, is among the calls made for
    the repository. *)
Theorem unprotected_branch_single_issue
  (gh : world) (org_name repo_name branch : string) :
  primary_branch gh org_name repo_name = Some branch ->
  protected gh org_name repo_name branch = false ->
  result_of gh (check_repository org_name repo_name) = Returned [not_protected branch]
  /\ forall b,
       ~ In (signatures_command org_name repo_name b)
            (commands (trace gh (check_repository org_name repo_name))).
Proof.
  intros Hp Hu. unfold result_of, trace. rewrite run_check_repository, Hp.
  unfold branch_verdict. rewrite Hu. simpl. split; [reflexivity |].
  intros b. rewrite commands_app. intros Hin. apply in_app_or in Hin.
  destruct Hin as [Hin | Hin].
  - apply commands_probes in Hin.
    destruct Hin as [E | E]; revert E; apply signatures_not_a_probe; auto.
  - simpl in Hin. destruct Hin as [E | []]. symmetry in E. revert E.
    apply signatures_not_protection. eapply primary_branch_name; eassumption.
Qed.

Lemma check_required_signatures_never_exits gh org_name repo_name branch c :
  result_of gh (check_required_signatures org_name repo_name branch) <> Exited c.
Proof.
  unfold result_of, check_required_signatures, run_command. simpl.
  destruct (gh (signatures_command org_name repo_name branch)) as [text|]; simpl;
    [| discriminate].
  destruct (Text.nonempty (Text.strip text)); simpl; [| discriminate].
  match goal with |- context [lift ?r] => destruct r end; discriminate.
Qed.

(** The check of a repository returns its issues or raises; it never
    exits. *)
Lemma result_of_check_repository gh org_name repo_name :
  result_of gh (check_repository org_name repo_name) =
  Returned (issues_of gh org_name repo_name)
  \/ exists e, result_of gh (check_repository org_name repo_name) = Raised e.
Proof.
  unfold issues_of, result_of at 1 2 3. rewrite run_check_repository.
  destruct (primary_branch gh org_name repo_name) as [branch|]; [| now left].
  unfold branch_verdict.
  destruct (protected gh org_name repo_name branch); [| now left].
  destruct (result_of gh (check_required_signatures org_name repo_name branch))
    as [v | e | c] eqn:R.
  - destruct (Py.truthy v); now left.
  - right. now exists e.
  - now apply check_required_signatures_never_exits in R.
Qed.

(** A repository with a primary branch, a protection and required
    signatures has no issue. *)
Lemma compliant_no_issue gh org_name repo_name branch :
  primary_branch gh org_name repo_name = Some branch ->
  protected gh org_name repo_name branch = true ->
  signatures_required gh org_name repo_name branch = true ->
  issues_of gh org_name repo_name = []
  /\ non_compliant gh org_name repo_name = false.
Proof.
  intros Hp Hprot Hsig.
  assert (E : issues_of gh org_name repo_name = []).
  { unfold issues_of, result_of at 1. rewrite run_check_repository, Hp.
    unfold branch_verdict. rewrite Hprot.
    unfold signatures_required in Hsig.
    destruct (result_of gh (check_required_signatures org_name repo_name branch))
      as [v | e | c]; try discriminate.
    now rewrite Hsig. }
  unfold non_compliant. now rewrite E.
Qed.

(** C7.  The check of a repository ends with at most one issue, and the
    conditions are taken in order: without a primary branch the issue is the
    missing branch, whatever the other calls would answer; with one that is
    not protected it is the missing protection, whatever the signatures
    call would answer; only for a protected one does the signatures check
    decide, between its issue and none.  The check can raise in the
    signatures check alone, and it never exits. *)
Theorem at_most_one_issue (gh : world) (org_name repo_name : string) :
  match result_of gh (check_repository org_name repo_name) with
  | Returned issues =>
      (List.length issues <= 1)%nat
      /\ match primary_branch gh org_name repo_name with
         | None => issues = [no_branch]
         | Some branch =>
             if protected gh org_name repo_name branch then
               if signatures_required gh org_name repo_name branch then issues = []
               else issues = [signing_not_required branch]
             else issues = [not_protected branch]
         end
  | Raised e =>
      exists branch,
        primary_branch gh org_name repo_name = Some branch
        /\ protected gh org_name repo_name branch = true
        /\ result_of gh (check_required_signatures org_name repo_name branch) = Raised e
  | Exited _ => False
  end.
Proof.
  unfold result_of at 1. rewrite run_check_repository.
  destruct (primary_branch gh org_name repo_name) as [branch|]; simpl;
    [| split; [lia | reflexivity]].
  unfold branch_verdict, signatures_required.
  destruct (protected gh org_name repo_name branch) eqn:P; simpl;
    [| split; [lia | reflexivity]].
  destruct (result_of gh (check_required_signatures org_name repo_name branch))
    as [v | e | c] eqn:R.
  - destruct (Py.truthy v); simpl; split; (lia || reflexivity).
  - exists branch. auto.
  - now apply check_required_signatures_never_exits in R.
Qed.

(** C10.  When the signatures call answers with JSON text that decodes to
    an object with an [enabled] entry, [check_required_signatures] returns
    the value of that entry as it is, of whatever type; and for a protected
    primary branch the repository gets no issue as soon as that value is
    true in a test, as a non-empty string is. *)
Theorem enabled_value_returned_unchanged
  (gh : world) (org_name repo_name branch text : string)
  (pairs : list (string * json)) (v : json) :
  gh (signatures_command org_name repo_name branch) = Some text ->
  Text.strip text <> EmptyString ->
  loads (Text.strip text) = Ok (JObject pairs) ->
  Py.dict_get "enabled" pairs = Some v ->
  result_of gh (check_required_signatures org_name repo_name branch) = Returned v
  /\ (Py.truthy v = true ->
      primary_branch gh org_name repo_name = Some branch ->
      protected gh org_name repo_name branch = true ->
      result_of gh (check_repository org_name repo_name) = Returned []).
Proof.
  intros Hgh Hne Hloads Hget.
  assert (R : result_of gh (check_required_signatures org_name repo_name branch)
              = Returned v).
  { unfold result_of, check_required_signatures, run_command. simpl.
    rewrite Hgh. simpl.
    destruct (Text.strip text) eqn:E; [congruence |]. simpl.
    rewrite Hloads. simpl. rewrite Hget. reflexivity. }
  split; [exact R |].
  intros Ht Hp Hprot. unfold result_of at 1.
  rewrite run_check_repository, Hp. unfold branch_verdict.
  rewrite Hprot, R, Ht. reflexivity.
Qed.

(* ================================================================== *)
(** ** The loop over the repositories and [main] *)

Lemma result_of_bind {A B : Type} (gh : world) (m : prog A) (f : A -> prog B) :
  result_of gh (bind m f) =
  match result_of gh m with
  | Returned a => result_of gh (f a)
  | Raised e => Raised e
  | Exited c => Exited c
  end.
Proof.
  unfold result_of. rewrite run_bind.
  destruct (run gh m) as [t [a | e | c]]; try reflexivity.
  simpl. destruct (run gh (f a)). reflexivity.
Qed.

Lemma result_of_print_issues gh issues :
  result_of gh (print_issues issues) = Returned tt.
Proof.
  induction issues as [|issue issues IH]; [reflexivity |].
  unfold result_of in *. simpl. now destruct (run gh (print_issues issues)).
Qed.

Lemma result_of_ret {A : Type} (gh : world) (a : A) :
  result_of gh (Ret a) = Returned a.
Proof. reflexivity. Qed.

Lemma result_of_raise {A : Type} (gh : world) (e : exn) :
  result_of gh (@Raise A e) = Raised e.
Proof. reflexivity. Qed.

Lemma result_of_emit {A : Type} (gh : world) (s : string) (k : prog A) :
  result_of gh (Emit s k) = result_of gh k.
Proof. unfold result_of. simpl. now destruct (run gh k). Qed.

(** One turn of the loop adds one to the count exactly when the repository
    has an issue. *)
Lemma result_of_scan_repository gh org_name total_repos i repo count n :
  result_of gh (scan_repository org_name total_repos i repo count) = Returned n ->
  n = (count + if non_compliant gh org_name (name_of repo) then 1 else 0)%nat.
Proof.
  unfold scan_repository, non_compliant, name_of.
  rewrite result_of_bind.
  destruct (Py.getitem repo "name") as [v | e]; cbn [lift];
    [rewrite result_of_ret | rewrite result_of_raise; discriminate].
  unfold write. cbn [bind]. rewrite result_of_emit, result_of_bind.
  destruct (result_of_check_repository gh org_name (format v)) as [-> | [e ->]];
    [| discriminate].
  destruct (issues_of gh org_name (format v)) as [|issue issues].
  - intros [= <-]. lia.
  - cbn [bind]. rewrite result_of_emit. unfold print. cbn [bind].
    rewrite result_of_emit, result_of_bind, result_of_print_issues.
    intros [= <-]. lia.
Qed.

Lemma result_of_repo_loop gh org_name total_repos repos : forall i count n,
  result_of gh (repo_loop org_name total_repos i repos count) = Returned n ->
  n = (count + count_non_compliant gh org_name repos)%nat.
Proof.
  unfold count_non_compliant.
  induction repos as [|repo repos IH]; intros i count n; cbn [repo_loop].
  - intros [= <-]. simpl. lia.
  - rewrite result_of_bind.
    destruct (result_of gh (scan_repository org_name total_repos i repo count))
      as [k | e | c] eqn:R; try discriminate.
    intros H. apply IH in H. apply result_of_scan_repository in R. subst k.
    cbn [filter]. destruct (non_compliant gh org_name (name_of repo)); simpl; lia.
Qed.

Lemma len_iter (v : json) (n : nat) :
  Py.len v = Ok n -> List.length (Py.iter v) = n.
Proof.
  destruct v; simpl; try discriminate; intros [= <-];
    try reflexivity; apply length_map.
Qed.

(** The events of [main] before the loop. *)
Lemma run_main_unlisted gh program org_name :
  answered gh (list_command org_name) = false ->
  run gh (main [program; org_name]) =
  ([Wrote (fetching org_name ++ LF); Called (list_command org_name);
    Wrote (no_repositories ++ LF)],
   Exited 1).
Proof.
  unfold answered, main, print, run_command. cbn [bind run].
  intros ->. reflexivity.
Qed.

(** X2.  A listing call that fails, or that writes nothing but whitespace,
    ends the run at once: the message, exit status 1, and no other call. *)
Lemma listing_failure_aborts gh program org_name :
  answered gh (list_command org_name) = false ->
  written (trace gh (main [program; org_name]))
  = [fetching org_name ++ LF; no_repositories ++ LF]
  /\ commands (trace gh (main [program; org_name])) = [list_command org_name]
  /\ exit_status (result_of gh (main [program; org_name])) = 1%Z.
Proof.
  intros H. unfold trace, result_of. rewrite (run_main_unlisted _ _ _ H).
  repeat split.
Qed.

(** X1.  With [len(sys.argv) != 2] no command is issued.  When
    [sys.argv] has a first element the whole run is the usage message,
    built from that element, and exit status 1; on an empty [sys.argv] the
    run ends in the [IndexError] of [sys.argv[0]] and nothing is
    written. *)
Lemma wrong_argument_count_exits gh argv :
  List.length argv <> 2%nat ->
  run gh (main argv) =
  match argv with
  | [] => ([], Raised IndexError)
  | program :: _ => ([Wrote (usage program ++ LF)], Exited 1)
  end.
Proof.
  destruct argv as [|program [|org_name [|extra argv]]]; intros H;
    try reflexivity.
  now elim H.
Qed.

Lemma run_main_listed gh program org_name text repos total_repos :
  gh (list_command org_name) = Some text ->
  Text.strip text <> EmptyString ->
  loads (Text.strip text) = Ok repos ->
  Py.len repos = Ok total_repos ->
  run gh (main [program; org_name]) =
  let (t, o) := run gh (repo_loop org_name total_repos 1 (Py.iter repos) 0) in
  let before :=
    [Wrote (fetching org_name ++ LF); Called (list_command org_name);
     Wrote (found total_repos ++ LF); Wrote (not_meeting ++ LF)] in
  match o with
  | Returned n =>
      ((before ++ t
        ++ [Wrote clear_line; Wrote (summary n total_repos ++ LF)])%list,
       Returned n)
  | Raised e => ((before ++ t)%list, Raised e)
  | Exited c => ((before ++ t)%list, Exited c)
  end.
Proof.
  intros Hgh Hne Hloads Hlen.
  unfold main, print, run_command, write. cbn [bind run].
  rewrite Hgh. cbn [option_map Py.truthy_output].
  destruct (Text.strip text) eqn:E; [congruence |].
  cbn [Text.nonempty negb loads_output]. rewrite Hloads. cbn [lift bind].
  rewrite Hlen. cbn [lift bind run].
  rewrite run_bind.
  destruct (run gh (repo_loop org_name total_repos 1 (Py.iter repos) 0))
    as [t [n | e | c]]; reflexivity.
Qed.

Lemma last_written_summary (before t : list event) (s : string) :
  last (written (before ++ t ++ [Wrote clear_line; Wrote s])) EmptyString = s.
Proof.
  rewrite !written_app. simpl written. rewrite !app_assoc.
  change [clear_line; s] with ([clear_line] ++ [s])%list.
  rewrite app_assoc. apply last_last.
Qed.

(** A run of [main] that returns went through a listing that decodes to a
    value with a length. *)
Lemma main_returned_listing gh program org_name t n :
  run gh (main [program; org_name]) = (t, Returned n) ->
  exists text repos total_repos,
    gh (list_command org_name) = Some text
    /\ Text.strip text <> EmptyString
    /\ loads (Text.strip text) = Ok repos
    /\ Py.len repos = Ok total_repos.
Proof.
  unfold main, print, run_command, write. cbn [bind run].
  destruct (gh (list_command org_name)) as [text|];
    cbn [option_map Py.truthy_output negb bind run]; [| discriminate].
  destruct (Text.strip text) as [|a s] eqn:E;
    cbn [Text.nonempty negb bind run loads_output]; [discriminate |].
  destruct (loads (String a s)) as [repos | e] eqn:L;
    cbn [lift bind run]; [| discriminate].
  destruct (Py.len repos) as [total | e] eqn:Len;
    cbn [lift bind run]; [| discriminate].
  intros _. exists text, repos, total. rewrite E. repeat split; congruence.
Qed.

(** Only a run with exactly one argument gets past the usage message. *)
Lemma main_returned_argv gh argv t n :
  run gh (main argv) = (t, Returned n) ->
  exists program org_name, argv = [program; org_name].
Proof.
  destruct argv as [|program [|org_name [|extra argv]]];
    try (unfold main, print; cbn [bind run]; discriminate).
  intros _. now exists program, org_name.
Qed.

(** C6.  In a run of [main] that reaches the summary, the count the
    summary line is made of is the number of elements of the listing whose
    check ends with a non-empty list of issues, and an element whose primary
    branch is protected with required signatures is not among them. *)
Theorem summary_counts_repositories_with_issues
  (gh : world) (argv : list string) (t : list event) (n : nat) :
  run gh (main argv) = (t, Returned n) ->
  exists program org_name text repos,
    argv = [program; org_name]
    /\ gh (list_command org_name) = Some text
    /\ loads (Text.strip text) = Ok repos
    /\ n = count_non_compliant gh org_name (Py.iter repos)
    /\ last (written t) EmptyString
       = summary n (List.length (Py.iter repos)) ++ LF
    /\ forall repo branch,
         In repo (Py.iter repos) ->
         primary_branch gh org_name (name_of repo) = Some branch ->
         protected gh org_name (name_of repo) branch = true ->
         signatures_required gh org_name (name_of repo) branch = true ->
         non_compliant gh org_name (name_of repo) = false.
Proof.
  intros H.
  destruct (main_returned_argv _ _ _ _ H) as (program & org_name & ->).
  destruct (main_returned_listing _ _ _ _ _ H)
    as (text & repos & total & Hgh & Hne & Hloads & Hlen).
  exists program, org_name, text, repos.
  split; [reflexivity | split; [exact Hgh | split; [exact Hloads |]]].
  rewrite (run_main_listed _ program _ _ _ _ Hgh Hne Hloads Hlen) in H.
  destruct (run gh (repo_loop org_name total 1 (Py.iter repos) 0))
    as [t' [k | e | c]] eqn:R; cbv zeta in H; try discriminate.
  apply pair_equal_spec in H. destruct H as [Ht Hn].
  injection Hn as <-. subst t.
  assert (Hk : k = count_non_compliant gh org_name (Py.iter repos)).
  { apply (result_of_repo_loop gh org_name total (Py.iter repos) 1 0 k).
    unfold result_of. now rewrite R. }
  split; [exact Hk |]. split.
  - rewrite (len_iter _ _ Hlen).
    match goal with |- context [written (?b ++ t' ++ _)] =>
      apply (last_written_summary b t') end.
  - intros repo branch _ Hp Hprot Hsig.
    now apply (compliant_no_issue gh org_name (name_of repo) branch).
Qed.

(** *** The signatures check, case by case *)

Lemma signatures_false_without_answer gh org_name repo_name branch :
  answered gh (signatures_command org_name repo_name branch) = false ->
  result_of gh (check_required_signatures org_name repo_name branch)
  = Returned (JBool false).
Proof.
  unfold answered, result_of, check_required_signatures, run_command.
  cbn [bind run].
  destruct (option_map Text.strip _) as [text|]; [| reflexivity].
  cbn [Py.truthy_output]. now intros ->.
Qed.

Lemma signatures_false_when_not_json gh org_name repo_name branch text :
  gh (signatures_command org_name repo_name branch) = Some text ->
  loads (Text.strip text) = Err JSONDecodeError ->
  result_of gh (check_required_signatures org_name repo_name branch)
  = Returned (JBool false).
Proof.
  intros Hgh Hloads.
  unfold result_of, check_required_signatures, run_command. cbn [bind run].
  rewrite Hgh. cbn [option_map].
  destruct (Text.nonempty (Text.strip text)); [| reflexivity].
  now rewrite Hloads.
Qed.

Lemma signatures_false_without_enabled gh org_name repo_name branch text pairs :
  gh (signatures_command org_name repo_name branch) = Some text ->
  loads (Text.strip text) = Ok (JObject pairs) ->
  Py.dict_get "enabled" pairs = None ->
  result_of gh (check_required_signatures org_name repo_name branch)
  = Returned (JBool false).
Proof.
  intros Hgh Hloads Hget.
  unfold result_of, check_required_signatures, run_command. cbn [bind run].
  rewrite Hgh. cbn [option_map].
  destruct (Text.nonempty (Text.strip text)); [| reflexivity].
  rewrite Hloads. cbn [and_then Py.get]. now rewrite Hget.
Qed.

(** JSON text that decodes to anything but an object makes the check
    raise. *)
Lemma signatures_raise_without_object gh org_name repo_name branch text v :
  gh (signatures_command org_name repo_name branch) = Some text ->
  Text.strip text <> EmptyString ->
  loads (Text.strip text) = Ok v ->
  is_object v = false ->
  result_of gh (check_required_signatures org_name repo_name branch)
  = Raised AttributeError.
Proof.
  intros Hgh Hne Hloads Hv.
  unfold result_of, check_required_signatures, run_command. cbn [bind run].
  rewrite Hgh. cbn [option_map].
  destruct (Text.strip text) eqn:E; [congruence |]. cbn [Text.nonempty].
  rewrite Hloads. destruct v; try discriminate; reflexivity.
Qed.

(** *** When [main] reaches the summary *)

Lemma scan_repository_returns gh org_name total_repos i repo count :
  checkable gh org_name repo ->
  exists n, result_of gh (scan_repository org_name total_repos i repo count)
            = Returned n.
Proof.
  intros (v & Hname & Hok). unfold scan_repository.
  rewrite result_of_bind, Hname. cbn [lift]. rewrite result_of_ret.
  unfold write. cbn [bind]. rewrite result_of_emit, result_of_bind.
  destruct (result_of_check_repository gh org_name (format v)) as [-> | [e He]];
    [| now apply Hok in He].
  destruct (issues_of gh org_name (format v)) as [|issue issues].
  - eexists. reflexivity.
  - cbn [bind]. rewrite result_of_emit. unfold print. cbn [bind].
    rewrite result_of_emit, result_of_bind, result_of_print_issues.
    eexists. reflexivity.
Qed.

Lemma repo_loop_returns gh org_name total_repos repos : forall i count,
  Forall (checkable gh org_name) repos ->
  exists n, result_of gh (repo_loop org_name total_repos i repos count) = Returned n.
Proof.
  induction repos as [|repo repos IH]; intros i count H; cbn [repo_loop].
  - eexists. reflexivity.
  - inversion H as [|? ? Hrepo Hrest]; subst.
    rewrite result_of_bind.
    destruct (scan_repository_returns gh org_name total_repos i repo count Hrepo)
      as [k ->].
    apply IH, Hrest.
Qed.

(** With a listing of elements that have a name and whose check does not
    raise, [main] returns, with exit status 0, after the summary line. *)
Lemma main_reaches_summary gh program org_name text repos total_repos :
  gh (list_command org_name) = Some text ->
  Text.strip text <> EmptyString ->
  loads (Text.strip text) = Ok repos ->
  Py.len repos = Ok total_repos ->
  Forall (checkable gh org_name) (Py.iter repos) ->
  exists t n,
    run gh (main [program; org_name]) = (t, Returned n)
    /\ exit_status (result_of gh (main [program; org_name])) = 0%Z
    /\ last (written t) EmptyString = summary n total_repos ++ LF.
Proof.
  intros Hgh Hne Hloads Hlen Hall.
  destruct (repo_loop_returns gh org_name total_repos (Py.iter repos) 1 0 Hall)
    as [n Hn].
  unfold result_of at 1. unfold result_of in Hn.
  rewrite (run_main_listed _ program _ _ _ _ Hgh Hne Hloads Hlen).
  destruct (run gh (repo_loop org_name total_repos 1 (Py.iter repos) 0))
    as [t' o]. simpl in Hn. subst o. cbv zeta.
  eexists. exists n. split; [reflexivity |]. split; [reflexivity |].
  match goal with |- context [written (?b ++ t' ++ _)] =>
    apply (last_written_summary b t') end.
Qed.

(* ================================================================== *)
(** ** Traces of the loop *)

Lemma trace_bind {A B : Type} (gh : world) (m : prog A) (f : A -> prog B) :
  trace gh (bind m f) =
  (trace gh m
   ++ match result_of gh m with
      | Returned a => trace gh (f a)
      | Raised _ => []
      | Exited _ => []
      end)%list.
Proof.
  unfold trace, result_of. rewrite run_bind.
  destruct (run gh m) as [t [a | e | c]]; simpl;
    [destruct (run gh (f a)); reflexivity | now rewrite app_nil_r ..].
Qed.

Lemma trace_emit {A : Type} (gh : world) (s : string) (k : prog A) :
  trace gh (Emit s k) = Wrote s :: trace gh k.
Proof. unfold trace. simpl. now destruct (run gh k). Qed.

Lemma trace_print_issues gh issues :
  trace gh (print_issues issues)
  = map (fun issue => Wrote (issue_line issue ++ LF)) issues.
Proof.
  induction issues as [|issue issues IH]; [reflexivity |].
  cbn [print_issues print bind map]. rewrite trace_emit. now rewrite IH.
Qed.

(** The checks of a repository write nothing. *)
Lemma written_check_repository gh org_name repo_name :
  written (trace gh (check_repository org_name repo_name)) = [].
Proof.
  unfold trace. rewrite run_check_repository.
  unfold probes, branch_verdict.
  destruct (primary_branch gh org_name repo_name) as [branch|];
    destruct (branch_present gh org_name repo_name "main");
    try destruct (protected gh org_name repo_name branch); reflexivity.
Qed.

(** One turn of the loop: the progress line, the calls of the check, and
    the report when the check returns. *)
Lemma trace_scan_repository gh org_name total_repos i repo count :
  trace gh (scan_repository org_name total_repos i repo count) =
  match Py.getitem repo "name" with
  | Err _ => []
  | Ok v =>
      Wrote (progress_line total_repos i (format v))
      :: (trace gh (check_repository org_name (format v))
          ++ match result_of gh (check_repository org_name (format v)) with
             | Returned issues => report org_name (format v) issues
             | Raised _ => []
             | Exited _ => []
             end)%list
  end.
Proof.
  unfold scan_repository. rewrite trace_bind.
  destruct (Py.getitem repo "name") as [v | e]; [| reflexivity].
  cbn [lift]. rewrite result_of_ret. change (trace gh (Ret v)) with (@nil event).
  cbn [app]. unfold write. cbn [bind]. rewrite trace_emit, trace_bind.
  unfold progress_line. f_equal. f_equal.
  destruct (result_of gh (check_repository org_name (format v)))
    as [[|issue issues] | e | c]; try reflexivity.
  cbn [bind]. rewrite trace_emit. unfold print. cbn [bind].
  rewrite trace_emit, trace_bind, trace_print_issues, result_of_print_issues.
  unfold report, report_header. cbn [trace run fst]. now rewrite app_nil_r.
Qed.

Lemma result_of_scan_repository_cases gh org_name total_repos i repo count :
  result_of gh (scan_repository org_name total_repos i repo count) =
  match Py.getitem repo "name" with
  | Err e => Raised e
  | Ok v =>
      match result_of gh (check_repository org_name (format v)) with
      | Returned [] => Returned count
      | Returned (_ :: _) => Returned (S count)
      | Raised e => Raised e
      | Exited c => Exited c
      end
  end.
Proof.
  unfold scan_repository. rewrite result_of_bind.
  destruct (Py.getitem repo "name") as [v | e]; cbn [lift];
    [rewrite result_of_ret | now rewrite result_of_raise].
  unfold write. cbn [bind]. rewrite result_of_emit, result_of_bind.
  destruct (result_of gh (check_repository org_name (format v)))
    as [[|issue issues] | e | c]; try reflexivity.
  cbn [bind]. rewrite result_of_emit. unfold print. cbn [bind].
  now rewrite result_of_emit, result_of_bind, result_of_print_issues.
Qed.

Lemma trace_repo_loop_cons gh org_name total_repos i repo others count :
  trace gh (repo_loop org_name total_repos i (repo :: others) count) =
  (trace gh (scan_repository org_name total_repos i repo count)
   ++ match result_of gh (scan_repository org_name total_repos i repo count) with
      | Returned c => trace gh (repo_loop org_name total_repos (S i) others c)
      | Raised _ => []
      | Exited _ => []
      end)%list.
Proof. cbn [repo_loop]. apply trace_bind. Qed.

Lemma result_of_repo_loop_cons gh org_name total_repos i repo others count :
  result_of gh (repo_loop org_name total_repos i (repo :: others) count) =
  match result_of gh (scan_repository org_name total_repos i repo count) with
  | Returned c => result_of gh (repo_loop org_name total_repos (S i) others c)
  | Raised e => Raised e
  | Exited c => Exited c
  end.
Proof. cbn [repo_loop]. apply result_of_bind. Qed.

Lemma trace_print gh s : trace gh (print s) = [Wrote (s ++ LF)].
Proof. reflexivity. Qed.

Lemma result_of_print gh s : result_of gh (print s) = Returned tt.
Proof. reflexivity. Qed.

Lemma trace_write gh s : trace gh (write s) = [Wrote s].
Proof. reflexivity. Qed.

Lemma result_of_write gh s : result_of gh (write s) = Returned tt.
Proof. reflexivity. Qed.

Lemma trace_run_command gh command :
  trace gh (run_command command) = [Called command].
Proof. reflexivity. Qed.

Lemma result_of_run_command gh command :
  result_of gh (run_command command)
  = Returned (option_map Text.strip (gh command)).
Proof. reflexivity. Qed.

Lemma trace_lift {A : Type} gh (r : result A) : trace gh (lift r) = [].
Proof. now destruct r. Qed.

Lemma result_of_lift {A : Type} gh (r : result A) :
  result_of gh (lift r) = match r with Ok a => Returned a | Err e => Raised e end.
Proof. now destruct r. Qed.

(** The whole trace and the outcome of [main] with one argument. *)
Lemma trace_main gh program org_name :
  trace gh (main [program; org_name]) =
  Wrote (fetching org_name ++ LF)
  :: Called (list_command org_name)
  :: if answered gh (list_command org_name) then
       match loads_output (option_map Text.strip (gh (list_command org_name))) with
       | Err _ => []
       | Ok repos =>
           match Py.len repos with
           | Err _ => []
           | Ok total_repos =>
               Wrote (found total_repos ++ LF)
               :: Wrote (not_meeting ++ LF)
               :: (trace gh (repo_loop org_name total_repos 1 (Py.iter repos) 0)
                   ++ match result_of gh
                              (repo_loop org_name total_repos 1 (Py.iter repos) 0) with
                      | Returned n =>
                          [Wrote clear_line; Wrote (summary n total_repos ++ LF)]
                      | Raised _ => []
                      | Exited _ => []
                      end)%list
           end
       end
     else [Wrote (no_repositories ++ LF)].
Proof.
  unfold main, answered.
  rewrite trace_bind, trace_print, result_of_print.
  rewrite trace_bind, trace_run_command, result_of_run_command.
  cbn [app]. do 2 f_equal.
  destruct (Py.truthy_output (option_map Text.strip (gh (list_command org_name))));
    cbn [negb].
  - rewrite trace_bind, trace_lift, result_of_lift. cbn [app].
    destruct (loads_output _) as [repos | e]; [| reflexivity].
    rewrite trace_bind, trace_lift, result_of_lift. cbn [app].
    destruct (Py.len repos) as [total | e]; [| reflexivity].
    rewrite trace_bind, trace_print, result_of_print.
    rewrite trace_bind, trace_print, result_of_print.
    rewrite trace_bind. cbn [app]. do 3 f_equal.
    all: destruct (result_of gh (repo_loop org_name total 1 (Py.iter repos) 0));
      reflexivity.
  - reflexivity.
Qed.

Lemma result_of_main gh program org_name :
  result_of gh (main [program; org_name]) =
  if answered gh (list_command org_name) then
    match loads_output (option_map Text.strip (gh (list_command org_name))) with
    | Err e => Raised e
    | Ok repos =>
        match Py.len repos with
        | Err e => Raised e
        | Ok total_repos =>
            result_of gh (repo_loop org_name total_repos 1 (Py.iter repos) 0)
        end
    end
  else Exited 1.
Proof.
  unfold main, answered.
  rewrite result_of_bind, result_of_print.
  rewrite result_of_bind, result_of_run_command.
  destruct (Py.truthy_output (option_map Text.strip (gh (list_command org_name))));
    cbn [negb].
  - rewrite result_of_bind, result_of_lift.
    destruct (loads_output _) as [repos | e]; [| reflexivity].
    rewrite result_of_bind, result_of_lift.
    destruct (Py.len repos) as [total | e]; [| reflexivity].
    rewrite result_of_bind, result_of_print.
    rewrite result_of_bind, result_of_print.
    rewrite result_of_bind.
    destruct (result_of gh (repo_loop org_name total 1 (Py.iter repos) 0));
      reflexivity.
  - reflexivity.
Qed.

(* ================================================================== *)
(** ** The calls of a run *)

Lemma commands_check_repository gh org_name repo_name :
  commands (trace gh (check_repository org_name repo_name)) =
  (commands (probes gh org_name repo_name)
   ++ match primary_branch gh org_name repo_name with
      | None => []
      | Some branch =>
          protection_command org_name repo_name branch
          :: if protected gh org_name repo_name branch then
               [signatures_command org_name repo_name branch]
             else []
      end)%list.
Proof.
  unfold trace. rewrite run_check_repository.
  destruct (primary_branch gh org_name repo_name) as [branch|];
    [| cbn [fst]; now rewrite app_nil_r].
  unfold branch_verdict.
  destruct (protected gh org_name repo_name branch); cbn [fst];
    now rewrite commands_app.
Qed.

Lemma commands_report org_name repo_name issues :
  commands (report org_name repo_name issues) = [].
Proof.
  destruct issues as [|issue issues]; [reflexivity |]. cbn [report commands].
  induction (issue :: issues) as [|x l IH]; [reflexivity | exact IH].
Qed.

Lemma commands_scan_repository gh org_name total_repos i repo count :
  commands (trace gh (scan_repository org_name total_repos i repo count)) =
  match Py.getitem repo "name" with
  | Err _ => []
  | Ok v => commands (trace gh (check_repository org_name (format v)))
  end.
Proof.
  rewrite trace_scan_repository.
  destruct (Py.getitem repo "name") as [v | e]; [| reflexivity].
  cbn [commands]. rewrite commands_app.
  destruct (result_of gh (check_repository org_name (format v))) as [issues | e | c];
    try rewrite commands_report; now rewrite app_nil_r.
Qed.

Lemma commands_check_repository_length gh org_name repo_name :
  List.length (commands (trace gh (check_repository org_name repo_name)))
  = (List.length (probes gh org_name repo_name)
     + match primary_branch gh org_name repo_name with
       | None => 0
       | Some branch => if protected gh org_name repo_name branch then 2 else 1
       end)%nat.
Proof.
  rewrite commands_check_repository, length_app.
  assert (P : List.length (commands (probes gh org_name repo_name))
              = List.length (probes gh org_name repo_name)).
  { unfold probes. now destruct (branch_present gh org_name repo_name "main"). }
  rewrite P. f_equal.
  destruct (primary_branch gh org_name repo_name) as [branch|]; [| reflexivity].
  now destruct (protected gh org_name repo_name branch).
Qed.

Lemma check_repository_at_most_four gh org_name repo_name :
  (List.length (commands (trace gh (check_repository org_name repo_name))) <= 4)%nat.
Proof.
  rewrite commands_check_repository_length. unfold primary_branch, probes.
  destruct (branch_present gh org_name repo_name "main");
    [| destruct (branch_present gh org_name repo_name "master")];
    try destruct (protected gh org_name repo_name _); simpl; lia.
Qed.

(** X6.  The check of a repository makes two, three or four calls: one
    probe when [main] is there and two otherwise, one more for the
    protection when a branch is there, and one more for the signatures when
    that branch is protected. *)
Theorem check_repository_calls (gh : world) (org_name repo_name : string) :
  List.length (commands (trace gh (check_repository org_name repo_name)))
  = ((if branch_present gh org_name repo_name "main" then 1 else 2)
     + match primary_branch gh org_name repo_name with
       | None => 0
       | Some branch => if protected gh org_name repo_name branch then 2 else 1
       end)%nat
  /\ (2 <= List.length (commands (trace gh (check_repository org_name repo_name)))
      <= 4)%nat.
Proof.
  rewrite commands_check_repository_length. unfold primary_branch, probes.
  destruct (branch_present gh org_name repo_name "main");
    [| destruct (branch_present gh org_name repo_name "master")];
    try destruct (protected gh org_name repo_name _); simpl; split; lia.
Qed.

Lemma commands_repo_loop_bounded gh org_name total_repos repos : forall i count,
  (List.length (commands (trace gh (repo_loop org_name total_repos i repos count)))
   <= 4 * List.length repos)%nat.
Proof.
  induction repos as [|repo repos IH]; intros i count; [simpl; lia |].
  rewrite trace_repo_loop_cons, commands_app, length_app, commands_scan_repository.
  assert (H1 : (List.length
                  match Py.getitem repo "name" with
                  | Ok v => commands (trace gh (check_repository org_name (format v)))
                  | Err _ => []
                  end <= 4)%nat).
  { destruct (Py.getitem repo "name") as [v | e]; [| simpl; lia].
    apply check_repository_at_most_four. }
  assert (H2 : (List.length
                  (commands
                     match result_of gh (scan_repository org_name total_repos i repo count) with
                     | Returned c => trace gh (repo_loop org_name total_repos (S i) repos c)
                     | Raised _ => []
                     | Exited _ => []
                     end) <= 4 * List.length repos)%nat).
  { destruct (result_of gh (scan_repository org_name total_repos i repo count));
      [apply IH | simpl; lia | simpl; lia]. }
  cbn [List.length]. lia.
Qed.

(** X14.  A run of [main] makes at most one call for the listing and four
    for each element of the listing it goes through; with another number of
    arguments than one it makes none. *)
Theorem main_calls_bounded (gh : world) (argv : list string) :
  (List.length (commands (trace gh (main argv)))
   <= 1 + 4 * List.length (listed gh (nth 1 argv EmptyString)))%nat
  /\ (List.length argv <> 2%nat -> commands (trace gh (main argv)) = []).
Proof.
  split.
  - destruct argv as [|program [|org_name [|extra argv]]];
      try (cbn; lia).
    cbn [nth]. rewrite trace_main. unfold listed. cbn [commands List.length].
    apply le_n_S.
    destruct (answered gh (list_command org_name)); [| simpl; lia].
    destruct (loads_output _) as [repos | e]; [| simpl; lia].
    destruct (Py.len repos) as [total | e] eqn:L.
    + cbn [commands]. rewrite commands_app, length_app.
      pose proof (commands_repo_loop_bounded gh org_name total (Py.iter repos) 1 0).
      destruct (result_of gh (repo_loop org_name total 1 (Py.iter repos) 0));
        simpl; lia.
    + simpl. lia.
  - destruct argv as [|program [|org_name [|extra argv]]]; intros H;
      try reflexivity.
    now elim H.
Qed.

Lemma repository_command_check_repository gh org_name repo_name :
  Forall (repository_command org_name repo_name)
    (commands (trace gh (check_repository org_name repo_name))).
Proof.
  assert (Hbranch : forall branch, branch = "main" \/ branch = "master" ->
            repository_command org_name repo_name
              (branch_command org_name repo_name branch)).
  { intros branch Hb. exists branch. auto. }
  assert (Hprot : forall branch, branch = "main" \/ branch = "master" ->
            repository_command org_name repo_name
              (protection_command org_name repo_name branch)).
  { intros branch Hb. exists branch. auto. }
  assert (Hsig : forall branch, branch = "main" \/ branch = "master" ->
            repository_command org_name repo_name
              (signatures_command org_name repo_name branch)).
  { intros branch Hb. exists branch. auto. }
  rewrite commands_check_repository. apply Forall_app. split.
  - unfold probes. destruct (branch_present gh org_name repo_name "main");
      cbn [commands];
      repeat (apply Forall_cons; [apply Hbranch; auto |]); apply Forall_nil.
  - destruct (primary_branch gh org_name repo_name) as [branch|] eqn:P;
      [| apply Forall_nil].
    apply primary_branch_name in P.
    apply Forall_cons; [apply Hprot; exact P |].
    destruct (protected gh org_name repo_name branch); [| apply Forall_nil].
    apply Forall_cons; [apply Hsig; exact P | apply Forall_nil].
Qed.

Lemma repository_command_repo_loop gh org_name total_repos repos : forall i count,
  Forall
    (fun command =>
       exists repo v,
         In repo repos
         /\ Py.getitem repo "name" = Ok v
         /\ repository_command org_name (format v) command)
    (commands (trace gh (repo_loop org_name total_repos i repos count))).
Proof.
  induction repos as [|repo repos IH]; intros i count; [constructor |].
  rewrite trace_repo_loop_cons, commands_app, commands_scan_repository.
  apply Forall_app. split.
  - destruct (Py.getitem repo "name") as [v | e] eqn:G; [| constructor].
    eapply Forall_impl; [| apply repository_command_check_repository].
    intros command Hc. exists repo, v.
    split; [now left | split; [exact G | exact Hc]].
  - destruct (result_of gh (scan_repository org_name total_repos i repo count));
      [| constructor | constructor].
    eapply Forall_impl; [| apply IH].
    intros command (r & v & Hin & G & Hc). exists r, v.
    split; [now right | split; [exact G | exact Hc]].
Qed.

(** X7.  Every command line a run of [main] issues is built from the
    listing of the organisation given as argument: it is the listing
    command of that organisation, or the probe, the protection or the
    signatures template filled with that organisation, the name of an
    element of the decoded listing and the branch [main] or [master].
    This is about the text of the command lines. *)
Theorem commands_built_from_listing (gh : world) (argv : list string) :
  Forall (built_from_listing gh (nth 1 argv EmptyString))
    (commands (trace gh (main argv))).
Proof.
  destruct argv as [|program [|org_name [|extra argv]]];
    [apply Forall_nil | apply Forall_nil | | apply Forall_nil].
  cbn [nth]. rewrite trace_main. cbn [commands].
  apply Forall_cons; [now left |].
  unfold built_from_listing, listed.
  destruct (answered gh (list_command org_name)); [| constructor].
  destruct (loads_output _) as [repos | e]; [| constructor].
  destruct (Py.len repos) as [total | e]; [| constructor].
  cbn [commands]. rewrite commands_app. apply Forall_app. split.
  - eapply Forall_impl; [| apply repository_command_repo_loop].
    intros command H. right. exact H.
  - destruct (result_of gh (repo_loop org_name total 1 (Py.iter repos) 0));
      constructor.
Qed.

(** *** The signatures call *)

Lemma append_cancel_l (a x y : string) : a ++ x = a ++ y -> x = y.
Proof.
  induction a as [|c a IH]; simpl; [auto |]. intros [= H]. auto.
Qed.

Lemma append_cancel_r (a : string) : forall x y, x ++ a = y ++ a -> x = y.
Proof.
  intros x y H.
  assert (L : String.length x = String.length y).
  { apply (f_equal String.length) in H. rewrite !length_append in H. lia. }
  revert y H L. induction x as [|c x IH]; intros [|d y]; simpl; intros H L;
    try discriminate; [reflexivity |].
  injection H as -> H. f_equal. apply IH; [exact H | lia].
Qed.

Lemma signatures_command_inj org_name repo_name b b' :
  signatures_command org_name repo_name b = signatures_command org_name repo_name b' ->
  b = b'.
Proof.
  unfold signatures_command. intros H.
  do 5 apply append_cancel_l in H.
  now apply append_cancel_r in H.
Qed.

(** X8.  The signatures command of a branch is among the calls made for a
    repository exactly when that branch is its primary branch and the
    protection call of that branch succeeds. *)
Theorem signatures_called_iff_protected
  (gh : world) (org_name repo_name branch : string) :
  In (signatures_command org_name repo_name branch)
     (commands (trace gh (check_repository org_name repo_name)))
  <-> primary_branch gh org_name repo_name = Some branch
      /\ protected gh org_name repo_name branch = true.
Proof.
  rewrite commands_check_repository. split.
  - intros H. apply in_app_or in H. destruct H as [H | H].
    + apply commands_probes in H. exfalso.
      destruct H as [E | E]; revert E; apply signatures_not_a_probe; auto.
    + destruct (primary_branch gh org_name repo_name) as [b|] eqn:P; [| destruct H].
      pose proof (primary_branch_name _ _ _ _ P) as Hb.
      destruct H as [E | H].
      * exfalso. symmetry in E. revert E. now apply signatures_not_protection.
      * destruct (protected gh org_name repo_name b) eqn:Q; [| destruct H].
        destruct H as [E | []]. apply signatures_command_inj in E. subst b.
        now split.
  - intros [P Q]. rewrite P, Q. apply in_or_app. right. right. now left.
Qed.

(** Once the signatures check returns a false value for the protected
    primary branch, the repository has the signing issue alone. *)
Lemma unsigned_branch_run gh org_name repo_name branch v :
  primary_branch gh org_name repo_name = Some branch ->
  protected gh org_name repo_name branch = true ->
  result_of gh (check_required_signatures org_name repo_name branch) = Returned v ->
  Py.truthy v = false ->
  run gh (check_repository org_name repo_name)
  = ((probes gh org_name repo_name
      ++ [Called (protection_command org_name repo_name branch);
          Called (signatures_command org_name repo_name branch)])%list,
     Returned [signing_not_required branch]).
Proof.
  intros P Q R T. rewrite run_check_repository, P. unfold branch_verdict.
  now rewrite Q, R, T.
Qed.

(** X11.  A repository whose primary branch is protected gets exactly the
    issue that commit signing is not required, after the probes, the
    protection call and the signatures call, whenever the signatures call
    fails or writes only whitespace, writes text that is not JSON, or writes
    an object whose [enabled] entry is missing or false in a test. *)
Theorem unsigned_branch_single_issue
  (gh : world) (org_name repo_name branch : string) :
  primary_branch gh org_name repo_name = Some branch ->
  protected gh org_name repo_name branch = true ->
  answered gh (signatures_command org_name repo_name branch) = false
  \/ (exists text,
         gh (signatures_command org_name repo_name branch) = Some text
         /\ (loads (Text.strip text) = Err JSONDecodeError
             \/ exists pairs,
                  loads (Text.strip text) = Ok (JObject pairs)
                  /\ match Py.dict_get "enabled" pairs with
                     | Some v => Py.truthy v = false
                     | None => True
                     end)) ->
  run gh (check_repository org_name repo_name)
  = ((probes gh org_name repo_name
      ++ [Called (protection_command org_name repo_name branch);
          Called (signatures_command org_name repo_name branch)])%list,
     Returned [signing_not_required branch]).
Proof.
  intros P Q H.
  assert (R : exists v,
             result_of gh (check_required_signatures org_name repo_name branch)
             = Returned v /\ Py.truthy v = false).
  { destruct H as [H | (text & Hgh & [H | (pairs & Hloads & Hv)])].
    - exists (JBool false). split; [now apply signatures_false_without_answer | reflexivity].
    - exists (JBool false).
      split; [now apply (signatures_false_when_not_json _ _ _ _ text) | reflexivity].
    - unfold result_of, check_required_signatures, run_command. cbn [bind run].
      rewrite Hgh. cbn [option_map].
      destruct (Text.nonempty (Text.strip text));
        [| exists (JBool false); now split].
      rewrite Hloads. cbn [and_then Py.get try_except lift run snd].
      destruct (Py.dict_get "enabled" pairs) as [v|];
        [exists v | exists (JBool false)]; now split. }
  destruct R as (v & R & T). now apply (unsigned_branch_run _ _ _ _ v).
Qed.

(* ================================================================== *)
(** ** The output of a run *)

Lemma issues_of_cases gh org_name repo_name :
  issues_of gh org_name repo_name = []
  \/ exists issue, issues_of gh org_name repo_name = [issue].
Proof.
  unfold issues_of, result_of. rewrite run_check_repository.
  destruct (primary_branch gh org_name repo_name) as [branch|];
    [| right; now exists no_branch].
  unfold branch_verdict.
  destruct (protected gh org_name repo_name branch);
    [| right; now exists (not_protected branch)].
  cbn [snd].
  destruct (result_of gh (check_required_signatures org_name repo_name branch))
    as [v | e | c]; try now left.
  destruct (Py.truthy v); [now left | right; now exists (signing_not_required branch)].
Qed.

Lemma written_report org_name repo_name issues :
  written (report org_name repo_name issues) =
  match issues with
  | [] => []
  | _ :: _ =>
      clear_line :: (report_header org_name repo_name ++ LF)
      :: map (fun issue => issue_line issue ++ LF) issues
  end.
Proof.
  destruct issues as [|issue issues]; [reflexivity |].
  cbn [report written]. do 2 f_equal.
  induction (issue :: issues) as [|x l IH]; [reflexivity |].
  cbn [map written]. now rewrite IH.
Qed.

Lemma written_scan_repository gh org_name total_repos i repo count :
  written (trace gh (scan_repository org_name total_repos i repo count)) =
  match Py.getitem repo "name" with
  | Err _ => []
  | Ok v =>
      progress_line total_repos i (format v)
      :: written (report org_name (format v) (issues_of gh org_name (format v)))
  end.
Proof.
  rewrite trace_scan_repository.
  destruct (Py.getitem repo "name") as [v | e]; [| reflexivity].
  cbn [written]. rewrite written_app, written_check_repository. cbn [app].
  f_equal. unfold issues_of.
  destruct (result_of gh (check_repository org_name (format v))); reflexivity.
Qed.

(** X13.  For an element of the listing that has a name, one turn of the
    loop writes the progress line and then, when the repository has an
    issue, the cleared line, the header that names the repository and the
    line of its one issue; it writes nothing more, and nothing but the
    progress line for a repository without issue or whose check raises. *)
Theorem scan_repository_output
  (gh : world) (org_name : string) (total_repos i : nat) (repo : json)
  (count : nat) (v : json) :
  Py.getitem repo "name" = Ok v ->
  written (trace gh (scan_repository org_name total_repos i repo count)) =
  progress_line total_repos i (format v)
  :: match issues_of gh org_name (format v) with
     | [] => []
     | issue :: _ =>
         [clear_line; report_header org_name (format v) ++ LF; issue_line issue ++ LF]
     end.
Proof.
  intros H. rewrite written_scan_repository, H, written_report.
  destruct (issues_of_cases gh org_name (format v)) as [-> | [issue ->]];
    reflexivity.
Qed.

Lemma written_repo_loop_cons gh org_name total_repos i repo others count :
  written (trace gh (repo_loop org_name total_repos i (repo :: others) count)) =
  (written (trace gh (scan_repository org_name total_repos i repo count))
   ++ match result_of gh (scan_repository org_name total_repos i repo count) with
      | Returned c => written (trace gh (repo_loop org_name total_repos (S i) others c))
      | Raised _ => []
      | Exited _ => []
      end)%list.
Proof.
  rewrite trace_repo_loop_cons, written_app.
  now destruct (result_of gh (scan_repository org_name total_repos i repo count)).
Qed.

(** A turn of the loop that returns: the element has a name, its check
    returned, and the count went up by one exactly with an issue. *)
Lemma scan_repository_returned gh org_name total_repos i repo count k :
  result_of gh (scan_repository org_name total_repos i repo count) = Returned k ->
  exists v,
    Py.getitem repo "name" = Ok v
    /\ result_of gh (check_repository org_name (format v))
       = Returned (issues_of gh org_name (format v))
    /\ k = match issues_of gh org_name (format v) with
           | [] => count
           | _ :: _ => S count
           end.
Proof.
  rewrite result_of_scan_repository_cases. unfold issues_of.
  destruct (Py.getitem repo "name") as [v | e]; [| discriminate].
  destruct (result_of gh (check_repository org_name (format v)))
    as [[|issue issues] | e | c] eqn:R; try discriminate; intros [= <-];
    exists v; rewrite R; (split; [reflexivity | split; reflexivity]).
Qed.

Lemma prefix_app (p s : string) : prefix p (p ++ s) = true.
Proof.
  induction p as [|a p IH]; simpl; [now destruct s |].
  destruct (ascii_dec a a) as [_ | N]; [exact IH | now elim N].
Qed.

Lemma is_issue_line_issue issue : is_issue_line (issue_line issue ++ LF) = true.
Proof. apply (prefix_app "  - " (issue ++ LF)). Qed.

Lemma issue_lines_scan_repository gh org_name total_repos i repo count k :
  result_of gh (scan_repository org_name total_repos i repo count) = Returned k ->
  (count
   + List.length
       (filter is_issue_line
          (written (trace gh (scan_repository org_name total_repos i repo count)))))%nat
  = k.
Proof.
  intros H. apply scan_repository_returned in H. destruct H as (v & Hv & _ & ->).
  rewrite written_scan_repository, Hv, written_report.
  destruct (issues_of_cases gh org_name (format v)) as [-> | [issue ->]];
    [cbn; lia |].
  cbn [map filter].
  change (is_issue_line (progress_line total_repos i (format v))) with false.
  change (is_issue_line clear_line) with false.
  change (is_issue_line (report_header org_name (format v) ++ LF)) with false.
  rewrite is_issue_line_issue. cbn [List.length]. lia.
Qed.

Lemma issue_lines_repo_loop gh org_name total_repos repos : forall i count n,
  result_of gh (repo_loop org_name total_repos i repos count) = Returned n ->
  (count
   + List.length
       (filter is_issue_line
          (written (trace gh (repo_loop org_name total_repos i repos count)))))%nat
  = n.
Proof.
  induction repos as [|repo repos IH]; intros i count n.
  - cbn. intros [= <-]. lia.
  - rewrite result_of_repo_loop_cons, written_repo_loop_cons.
    destruct (result_of gh (scan_repository org_name total_repos i repo count))
      as [k | e | c] eqn:R; try discriminate.
    intros H. apply IH in H. apply issue_lines_scan_repository in R.
    rewrite filter_app, length_app. lia.
Qed.

Lemma is_issue_line_summary n total_repos :
  is_issue_line (summary n total_repos ++ LF) = false.
Proof. unfold summary. now destruct (Nat.eqb n 0). Qed.

(** What a run of [main] that returns has written. *)
Lemma written_main_returned gh argv t n :
  run gh (main argv) = (t, Returned n) ->
  exists program org_name repos total_repos,
    argv = [program; org_name]
    /\ listed gh org_name = Py.iter repos
    /\ Py.len repos = Ok total_repos
    /\ result_of gh (repo_loop org_name total_repos 1 (Py.iter repos) 0) = Returned n
    /\ written t =
       (fetching org_name ++ LF) :: (found total_repos ++ LF) :: (not_meeting ++ LF)
       :: (written (trace gh (repo_loop org_name total_repos 1 (Py.iter repos) 0))
           ++ [clear_line; (summary n total_repos ++ LF)%string])%list.
Proof.
  intros H.
  destruct (main_returned_argv _ _ _ _ H) as (program & org_name & ->).
  assert (Ht : t = trace gh (main [program; org_name]))
    by (unfold trace; now rewrite H).
  assert (Hr : result_of gh (main [program; org_name]) = Returned n)
    by (unfold result_of; now rewrite H).
  rewrite result_of_main in Hr. rewrite trace_main in Ht.
  destruct (answered gh (list_command org_name)) eqn:A; [| discriminate].
  destruct (loads_output (option_map Text.strip (gh (list_command org_name))))
    as [repos | e] eqn:Lo; [| discriminate].
  destruct (Py.len repos) as [total | e] eqn:L; [| discriminate].
  exists program, org_name, repos, total.
  rewrite Hr in Ht. subst t. unfold listed. rewrite A, Lo.
  split; [reflexivity |]. split; [reflexivity |]. split; [exact L |].
  split; [exact Hr |].
  cbn [written]. now rewrite written_app.
Qed.

Lemma issue_lines_of_scan_repository gh org_name total_repos i repo count k :
  result_of gh (scan_repository org_name total_repos i repo count) = Returned k ->
  filter is_issue_line
    (written (trace gh (scan_repository org_name total_repos i repo count)))
  = map (fun issue => issue_line issue ++ LF) (issues_of gh org_name (name_of repo)).
Proof.
  intros H. apply scan_repository_returned in H. destruct H as (v & Hv & _ & _).
  rewrite written_scan_repository. unfold name_of. rewrite Hv, written_report.
  destruct (issues_of_cases gh org_name (format v)) as [-> | [issue ->]];
    [reflexivity |].
  cbn [map filter].
  change (is_issue_line (progress_line total_repos i (format v))) with false.
  change (is_issue_line clear_line) with false.
  change (is_issue_line (report_header org_name (format v) ++ LF)) with false.
  now rewrite is_issue_line_issue.
Qed.

Lemma issue_lines_of_repo_loop gh org_name total_repos repos : forall i count n,
  result_of gh (repo_loop org_name total_repos i repos count) = Returned n ->
  filter is_issue_line
    (written (trace gh (repo_loop org_name total_repos i repos count)))
  = issue_lines gh org_name repos.
Proof.
  unfold issue_lines.
  induction repos as [|repo repos IH]; intros i count n; [reflexivity |].
  rewrite result_of_repo_loop_cons, written_repo_loop_cons.
  destruct (result_of gh (scan_repository org_name total_repos i repo count))
    as [k | e | c] eqn:R; try discriminate.
  intros H. apply IH in H. apply issue_lines_of_scan_repository in R.
  rewrite filter_app, R, H. reflexivity.
Qed.

(** X9.  In a run of [main] that reaches the summary, the texts written
    that begin with the issue mark (two spaces, a dash, a space) are the
    issue lines of the elements of the listing, in the order of the
    listing: one for each element with an issue, made of the issue the
    script collected for it, and none for the others.  Their number is the
    count the run returns.  This is about the texts the script writes, one
    for each [print]; it says nothing on how a name that holds a line
    break divides the output into lines. *)
Theorem issue_prints_match_count
  (gh : world) (argv : list string) (t : list event) (n : nat) :
  run gh (main argv) = (t, Returned n) ->
  filter is_issue_line (written t)
  = issue_lines gh (nth 1 argv EmptyString) (listed gh (nth 1 argv EmptyString))
  /\ List.length (filter is_issue_line (written t)) = n.
Proof.
  intros H. apply written_main_returned in H.
  destruct H as (program & org_name & repos & total & -> & E & _ & Hr & ->).
  cbn [nth]. rewrite E.
  pose proof (issue_lines_repo_loop _ _ _ _ _ _ _ Hr) as Hn.
  apply issue_lines_of_repo_loop in Hr.
  cbn [filter]. change (is_issue_line (fetching org_name ++ LF)) with false.
  change (is_issue_line (found total ++ LF)) with false.
  change (is_issue_line (not_meeting ++ LF)) with false. cbn iota.
  rewrite filter_app, length_app. cbn [filter].
  change (is_issue_line clear_line) with false.
  rewrite is_issue_line_summary. cbn [List.length]. split; [| lia].
  rewrite Hr. apply app_nil_r.
Qed.

Lemma is_progress_line_progress total_repos i repo_name :
  is_progress_line (progress_line total_repos i repo_name) = true.
Proof.
  apply (prefix_app (CR ++ "Processing: ")
           (Text.str_of_nat i ++ "/" ++ Text.str_of_nat total_repos
            ++ " (" ++ repo_name ++ ")" ++ Text.spaces 20)).
Qed.

Lemma progress_lines_scan_repository gh org_name total_repos i repo count k :
  result_of gh (scan_repository org_name total_repos i repo count) = Returned k ->
  filter is_progress_line
    (written (trace gh (scan_repository org_name total_repos i repo count)))
  = [progress_line total_repos i (name_of repo)].
Proof.
  intros H. apply scan_repository_returned in H. destruct H as (v & Hv & _ & _).
  rewrite written_scan_repository. unfold name_of. rewrite Hv, written_report.
  cbn [filter]. rewrite is_progress_line_progress. f_equal.
  destruct (issues_of_cases gh org_name (format v)) as [-> | [issue ->]];
    reflexivity.
Qed.

Lemma progress_lines_repo_loop gh org_name total_repos repos : forall i count n,
  result_of gh (repo_loop org_name total_repos i repos count) = Returned n ->
  filter is_progress_line
    (written (trace gh (repo_loop org_name total_repos i repos count)))
  = progress_lines total_repos i repos.
Proof.
  induction repos as [|repo repos IH]; intros i count n; [reflexivity |].
  rewrite result_of_repo_loop_cons, written_repo_loop_cons.
  destruct (result_of gh (scan_repository org_name total_repos i repo count))
    as [k | e | c] eqn:R; try discriminate.
  intros H. apply IH in H. apply progress_lines_scan_repository in R.
  rewrite filter_app, R, H. reflexivity.
Qed.

Lemma is_progress_line_summary n total_repos :
  is_progress_line (summary n total_repos ++ LF) = false.
Proof. unfold summary. now destruct (Nat.eqb n 0). Qed.

(** X12.  In a run of [main] that reaches the summary, the progress lines
    written are those of the elements of the listing, one for each, in the
    order of the listing, numbered from 1 out of their number. *)
Theorem progress_lines_number_the_listing
  (gh : world) (argv : list string) (t : list event) (n : nat) :
  run gh (main argv) = (t, Returned n) ->
  filter is_progress_line (written t)
  = progress_lines (List.length (listed gh (nth 1 argv EmptyString))) 1
      (listed gh (nth 1 argv EmptyString)).
Proof.
  intros H. apply written_main_returned in H.
  destruct H as (program & org_name & repos & total & -> & E & L & Hr & ->).
  cbn [nth]. rewrite E, (len_iter _ _ L).
  apply progress_lines_repo_loop in Hr.
  cbn [filter]. change (is_progress_line (fetching org_name ++ LF)) with false.
  change (is_progress_line (found total ++ LF)) with false.
  change (is_progress_line (not_meeting ++ LF)) with false. cbn iota.
  rewrite filter_app, Hr. cbn [filter].
  change (is_progress_line clear_line) with false.
  rewrite is_progress_line_summary. apply app_nil_r.
Qed.

(* ================================================================== *)
(** ** The count and the summary *)

Lemma count_non_compliant_le gh org_name repos :
  (count_non_compliant gh org_name repos <= List.length repos)%nat.
Proof. unfold count_non_compliant. apply filter_length_le. Qed.

Lemma count_non_compliant_zero gh org_name repos :
  count_non_compliant gh org_name repos = 0%nat
  <-> Forall (fun repo => issues_of gh org_name (name_of repo) = []) repos.
Proof.
  unfold count_non_compliant, non_compliant.
  induction repos as [|repo repos IH]; cbn [filter].
  - split; [constructor | reflexivity].
  - destruct (issues_of gh org_name (name_of repo)) as [|issue issues] eqn:E.
    + rewrite IH. split; [now constructor | intros H; now inversion H].
    + cbn [List.length]. split; [discriminate |].
      intros H. inversion H. congruence.
Qed.

Lemma summary_all_meet n total_repos :
  summary n total_repos = all_meet <-> n = 0%nat.
Proof.
  unfold summary. destruct n as [|n]; cbn [Nat.eqb].
  - now split.
  - split; [| discriminate]. unfold total_line, all_meet, LF.
    cbn [append]. discriminate.
Qed.

Lemma last_of_lines (a b c x y d : string) (l : list string) :
  last (a :: b :: c :: (l ++ [x; y])%list) d = y.
Proof.
  change (a :: b :: c :: (l ++ [x; y])%list)
    with (([a; b; c] ++ l ++ [x] ++ [y])%list).
  rewrite !app_assoc. apply last_last.
Qed.

(** X10.  In a run of [main] that reaches the summary, the count is at
    most the number of elements of the listing, and the last line written
    says that all repositories meet the requirements exactly when no element
    of the listing has an issue; otherwise it is the line with the count
    and the number of elements. *)
Theorem summary_line_of_the_listing
  (gh : world) (argv : list string) (t : list event) (n : nat) :
  run gh (main argv) = (t, Returned n) ->
  let repos := listed gh (nth 1 argv EmptyString) in
  (n <= List.length repos)%nat
  /\ (last (written t) EmptyString = all_meet ++ LF
      <-> Forall (fun repo => issues_of gh (nth 1 argv EmptyString) (name_of repo) = [])
            repos)
  /\ (n <> 0%nat ->
      last (written t) EmptyString = total_line n (List.length repos) ++ LF).
Proof.
  intros H. apply written_main_returned in H.
  destruct H as (program & org_name & repos & total & -> & E & L & Hr & W).
  cbn [nth]. cbv zeta. rewrite E.
  apply result_of_repo_loop in Hr. cbn [plus] in Hr.
  assert (Hlast : last (written t) EmptyString = summary n total ++ LF).
  { rewrite W. apply last_of_lines. }
  split; [subst n; apply count_non_compliant_le |]. split.
  - rewrite Hlast, <- count_non_compliant_zero, <- Hr. split.
    + intros A. apply append_cancel_r in A. now apply summary_all_meet in A.
    + intros ->. reflexivity.
  - intros N. rewrite Hlast, (len_iter _ _ L). unfold summary.
    destruct n; [now elim N | reflexivity].
Qed.

(* ================================================================== *)
(** ** How a run ends *)

Lemma repo_loop_returned_checkable gh org_name total_repos repos : forall i count n,
  result_of gh (repo_loop org_name total_repos i repos count) = Returned n ->
  Forall (checkable gh org_name) repos.
Proof.
  induction repos as [|repo repos IH]; intros i count n; [constructor |].
  rewrite result_of_repo_loop_cons.
  destruct (result_of gh (scan_repository org_name total_repos i repo count))
    as [k | e | c] eqn:R; try discriminate.
  intros H. apply IH in H. apply scan_repository_returned in R.
  destruct R as (v & Hv & Hc & _).
  apply Forall_cons; [| exact H].
  exists v. split; [exact Hv |]. intros e. rewrite Hc. discriminate.
Qed.

(** X4.  A run of [main] reaches the summary only if it has one argument,
    the listing call succeeded with more than whitespace, its answer
    decoded to a value that has a length, and every element of that value
    has a name whose check did not raise: no element is left out on the
    way to the summary. *)
Theorem summary_only_after_every_check
  (gh : world) (argv : list string) (t : list event) (n : nat) :
  run gh (main argv) = (t, Returned n) ->
  exists program org_name text repos total_repos,
    argv = [program; org_name]
    /\ gh (list_command org_name) = Some text
    /\ Text.strip text <> EmptyString
    /\ loads (Text.strip text) = Ok repos
    /\ Py.len repos = Ok total_repos
    /\ Forall (checkable gh org_name) (Py.iter repos).
Proof.
  intros H.
  destruct (main_returned_argv _ _ _ _ H) as (program & org_name & ->).
  destruct (main_returned_listing _ _ _ _ _ H)
    as (text & repos & total & Hgh & Hne & Hloads & Hlen).
  exists program, org_name, text, repos, total.
  repeat (split; [assumption || reflexivity |]).
  assert (Hr : result_of gh (main [program; org_name]) = Returned n)
    by (unfold result_of; now rewrite H).
  rewrite result_of_main in Hr. unfold answered in Hr.
  rewrite Hgh in Hr. cbn [option_map Py.truthy_output loads_output] in Hr.
  destruct (Text.strip text) eqn:E; [congruence |].
  cbn [Text.nonempty] in Hr. rewrite Hloads, Hlen in Hr.
  now apply repo_loop_returned_checkable in Hr.
Qed.

Lemma repo_loop_never_exits gh org_name total_repos repos : forall i count c,
  result_of gh (repo_loop org_name total_repos i repos count) <> Exited c.
Proof.
  induction repos as [|repo repos IH]; intros i count c; [discriminate |].
  rewrite result_of_repo_loop_cons, result_of_scan_repository_cases.
  destruct (Py.getitem repo "name") as [v | e]; [| discriminate].
  destruct (result_of_check_repository gh org_name (format v)) as [-> | [e ->]];
    [| discriminate].
  destruct (issues_of gh org_name (format v)); apply IH.
Qed.

(** X5.  The exit status of a run of [main] is 0 or 1, and it is 0 exactly
    when [main] returns, that is after the summary line; the usage error,
    the failed listing and every uncaught exception give 1. *)
Theorem exit_status_zero_or_one (gh : world) (argv : list string) :
  (exit_status (result_of gh (main argv)) = 0%Z
   \/ exit_status (result_of gh (main argv)) = 1%Z)
  /\ (exit_status (result_of gh (main argv)) = 0%Z
      <-> exists n, result_of gh (main argv) = Returned n).
Proof.
  assert (H : (exists n, result_of gh (main argv) = Returned n)
              \/ (exists e, result_of gh (main argv) = Raised e)
              \/ result_of gh (main argv) = Exited 1).
  { destruct argv as [|program [|org_name [|extra argv]]];
      [right; left; now exists IndexError | | |];
      try (right; right; reflexivity).
    rewrite result_of_main.
    destruct (answered gh (list_command org_name)); [| now right; right].
    destruct (loads_output _) as [repos | e]; [| right; left; now exists e].
    destruct (Py.len repos) as [total | e]; [| right; left; now exists e].
    destruct (result_of gh (repo_loop org_name total 1 (Py.iter repos) 0))
      as [n | e | c] eqn:R.
    - left. now exists n.
    - right. left. now exists e.
    - now apply repo_loop_never_exits in R. }
  destruct H as [[n ->] | [[e ->] | ->]]; cbn [exit_status].
  - split; [now left |]. split; [intros _; now exists n | reflexivity].
  - split; [now right |]. split; [discriminate | intros [n H]; discriminate].
  - split; [now right |]. split; [discriminate | intros [n H]; discriminate].
Qed.

(** X3.  When the listing call succeeds with text that [json.loads]
    refuses, or that decodes to a value without a length, [main] ends in
    that exception right after the listing call: it has written the first
    line only, and the exit status is 1. *)
Theorem undecodable_listing_raises
  (gh : world) (program org_name text : string) (e : exn) :
  gh (list_command org_name) = Some text ->
  Text.strip text <> EmptyString ->
  and_then (loads (Text.strip text)) Py.len = Err e ->
  run gh (main [program; org_name])
  = ([Wrote (fetching org_name ++ LF); Called (list_command org_name)], Raised e)
  /\ exit_status (result_of gh (main [program; org_name])) = 1%Z.
Proof.
  intros Hgh Hne H.
  assert (R : run gh (main [program; org_name])
              = ([Wrote (fetching org_name ++ LF); Called (list_command org_name)],
                 Raised e)).
  { rewrite (surjective_pairing (run gh (main [program; org_name]))).
    fold (trace gh (main [program; org_name])).
    fold (result_of gh (main [program; org_name])).
    rewrite trace_main, result_of_main. unfold answered.
    rewrite Hgh. cbn [option_map Py.truthy_output loads_output].
    destruct (Text.strip text) eqn:E; [congruence |]. cbn [Text.nonempty].
    destruct (loads (String a s)) as [repos | e']; cbn [and_then] in H.
    - rewrite H. reflexivity.
    - injection H as ->. reflexivity. }
  split; [exact R |]. unfold result_of. now rewrite R.
Qed.

(** The loop over elements that can be handled, followed by others: it
    goes through the first ones and then on with the others. *)
Lemma run_repo_loop_app gh org_name total_repos rest pre : forall i count,
  Forall (checkable gh org_name) pre ->
  exists count',
    result_of gh (repo_loop org_name total_repos i pre count) = Returned count'
    /\ run gh (repo_loop org_name total_repos i (pre ++ rest) count)
       = let (t, o) :=
           run gh (repo_loop org_name total_repos (i + List.length pre) rest count') in
         ((trace gh (repo_loop org_name total_repos i pre count) ++ t)%list, o).
Proof.
  induction pre as [|repo pre IH]; intros i count Hall.
  - exists count. split; [reflexivity |].
    cbn [app List.length]. rewrite Nat.add_0_r.
    now destruct (run gh (repo_loop org_name total_repos i rest count)).
  - inversion Hall as [|? ? Hrepo Hpre]; subst.
    destruct (scan_repository_returns gh org_name total_repos i repo count Hrepo)
      as [k Hk].
    destruct (IH (S i) k Hpre) as (count' & Hr & Hrun).
    exists count'. split.
    + now rewrite result_of_repo_loop_cons, Hk.
    + cbn [app List.length]. rewrite Nat.add_succ_r.
      change (S (i + List.length pre)) with (S i + List.length pre)%nat.
      rewrite trace_repo_loop_cons, Hk. cbn [repo_loop]. rewrite run_bind.
      unfold result_of in Hk.
      fold (trace gh (scan_repository org_name total_repos i repo count)).
      destruct (run gh (scan_repository org_name total_repos i repo count))
        as [t1 o1] eqn:R1.
      cbn [snd] in Hk. subst o1. unfold trace at 1. rewrite R1. cbn [fst].
      rewrite Hrun.
      destruct (run gh (repo_loop org_name total_repos (S i + List.length pre) rest count'))
        as [t2 o2].
      now rewrite app_assoc.
Qed.

(** X15.  When an element of the listing has no name (it is no object, or
    an object without that key), [main] goes through the elements before it
    and ends in the exception of the lookup ([TypeError] or [KeyError]) at
    that element: nothing is written or called for it or for the elements
    after it, and there is no summary. *)
Theorem nameless_element_raises
  (gh : world) (program org_name text : string) (repos : json)
  (total_repos : nat) (pre post : list json) (bad : json) (e : exn) :
  gh (list_command org_name) = Some text ->
  Text.strip text <> EmptyString ->
  loads (Text.strip text) = Ok repos ->
  Py.len repos = Ok total_repos ->
  Py.iter repos = (pre ++ bad :: post)%list ->
  Forall (checkable gh org_name) pre ->
  Py.getitem bad "name" = Err e ->
  run gh (main [program; org_name])
  = ( Wrote (fetching org_name ++ LF)
      :: Called (list_command org_name)
      :: Wrote (found total_repos ++ LF)
      :: Wrote (not_meeting ++ LF)
      :: trace gh (repo_loop org_name total_repos 1 pre 0),
      Raised e ).
Proof.
  intros Hgh Hne Hloads Hlen Hiter Hpre Hbad.
  rewrite (run_main_listed _ program _ _ _ _ Hgh Hne Hloads Hlen), Hiter.
  destruct (run_repo_loop_app gh org_name total_repos (bad :: post) pre 1 0 Hpre)
    as (count' & _ & ->).
  cbn [repo_loop]. rewrite run_bind.
  assert (R : run gh (scan_repository org_name total_repos
                        (1 + List.length pre) bad count') = ([], Raised e)).
  { unfold scan_repository. rewrite Hbad. reflexivity. }
  rewrite R. cbv zeta. cbn [app]. now rewrite app_nil_r.
Qed.

(* ================================================================== *)
(** ** What a repository without issue shows *)

(** The signatures check returns a true value only for an answer that
    decodes to an object whose [enabled] entry is true in a test. *)
Lemma signatures_required_enabled gh org_name repo_name branch :
  signatures_required gh org_name repo_name branch = true ->
  exists text pairs v,
    gh (signatures_command org_name repo_name branch) = Some text
    /\ loads (Text.strip text) = Ok (JObject pairs)
    /\ Py.dict_get "enabled" pairs = Some v
    /\ Py.truthy v = true.
Proof.
  unfold signatures_required, result_of, check_required_signatures, run_command.
  cbn [bind run].
  destruct (gh (signatures_command org_name repo_name branch)) as [text|];
    cbn [option_map]; [| discriminate].
  destruct (Text.nonempty (Text.strip text)); [| discriminate].
  destruct (loads (Text.strip text)) as [w | e] eqn:L.
  - destruct w; cbn [and_then Py.get try_except lift run snd exn_eqb];
      try discriminate.
    destruct (Py.dict_get "enabled" pairs) as [v|] eqn:G; [| discriminate].
    intros T. exists text, pairs, v. auto.
  - destruct e; discriminate.
Qed.

Lemma answered_text gh command :
  answered gh command = true ->
  exists text, gh command = Some text /\ Text.strip text <> EmptyString.
Proof.
  unfold answered. destruct (gh command) as [text|];
    cbn [option_map Py.truthy_output]; [| discriminate].
  intros H. exists text. split; [reflexivity |].
  destruct (Text.strip text); [discriminate | discriminate].
Qed.

(** X16.  The check of a repository ends without issue only if three calls
    were answered: the probe of the primary branch ([main], or [master]
    when [main] is not there) with more than whitespace; the protection
    call of that branch with any text at all, the empty one too, since
    only its failure is tested; and the signatures call of that branch
    with a text that decodes to an object whose [enabled] entry is true
    in a test. *)
Theorem no_issue_only_on_positive_answers
  (gh : world) (org_name repo_name : string) :
  result_of gh (check_repository org_name repo_name) = Returned [] ->
  exists branch probe protection text pairs v,
    primary_branch gh org_name repo_name = Some branch
    /\ gh (branch_command org_name repo_name branch) = Some probe
    /\ Text.strip probe <> EmptyString
    /\ gh (protection_command org_name repo_name branch) = Some protection
    /\ gh (signatures_command org_name repo_name branch) = Some text
    /\ loads (Text.strip text) = Ok (JObject pairs)
    /\ Py.dict_get "enabled" pairs = Some v
    /\ Py.truthy v = true.
Proof.
  unfold result_of. rewrite run_check_repository.
  destruct (primary_branch gh org_name repo_name) as [branch|] eqn:P;
    [| discriminate].
  unfold branch_verdict.
  destruct (protected gh org_name repo_name branch) eqn:Q; [| discriminate].
  cbn [snd].
  destruct (result_of gh (check_required_signatures org_name repo_name branch))
    as [w | e | c] eqn:R; try discriminate.
  destruct (Py.truthy w) eqn:T; [| discriminate]. intros _.
  assert (S : signatures_required gh org_name repo_name branch = true)
    by (unfold signatures_required; now rewrite R).
  apply signatures_required_enabled in S.
  destruct S as (text & pairs & v & Hgh & Hloads & Hget & Hv).
  assert (M : branch_present gh org_name repo_name branch = true).
  { revert P. unfold primary_branch.
    destruct (branch_present gh org_name repo_name "main") eqn:M;
      [intros [= <-]; exact M |].
    destruct (branch_present gh org_name repo_name "master") eqn:M';
      [intros [= <-]; exact M' | discriminate]. }
  apply answered_text in M. destruct M as (probe & Hprobe & Hne).
  unfold protected in Q.
  destruct (gh (protection_command org_name repo_name branch)) as [protection|] eqn:Hp;
    [| discriminate].
  exists branch, probe, protection, text, pairs, v.
  repeat (split; [assumption || reflexivity |]). assumption.
Qed.

End Scanner.

(* ================================================================== *)
(** ** The decoder has fuel for every text *)

Module DecoderFacts.

Import Decoder.

Lemma skip_ws_length (s : string) :
  (String.length (skip_ws s) <= String.length s)%nat.
Proof.
  induction s as [|c r IH]; simpl; [lia |].
  destruct (is_ws c); simpl; lia.
Qed.

Lemma consumes_prepend (s s' p : string) (r : scan string) :
  (String.length s' < String.length s)%nat ->
  consumes s' r -> consumes s (prepend p r).
Proof.
  destruct r; simpl; try tauto. lia.
Qed.

Lemma consumes_prepend_le (s s' p : string) (r : scan string) :
  (String.length s' <= String.length s)%nat ->
  consumes s' r -> consumes s (prepend p r).
Proof.
  destruct r; simpl; try tauto. lia.
Qed.

Lemma scanstring_consumes_upto (n : nat) : forall s,
  (String.length s <= n)%nat -> consumes s (scanstring s).
Proof.
  induction n as [|n IH]; intros s Hlen.
  - destruct s; [exact I | simpl in Hlen; lia].
  - destruct s as [|c r]; [exact I |].
    simpl in Hlen. cbn [scanstring].
    repeat match goal with
           | |- consumes _ (prepend _ (scanstring ?x)) =>
               apply (consumes_prepend _ x); [simpl in *; lia | apply IH; simpl in *; lia]
           | |- consumes _ Malformed => exact I
           | |- consumes _ (Scanned _ _) => simpl; lia
           | |- consumes _ (if ?b then _ else _) => destruct b
           | |- consumes _ (match ?x with _ => _ end) => destruct x
           end.
Qed.

Lemma scanstring_consumes (s : string) : consumes s (scanstring s).
Proof. apply (scanstring_consumes_upto (String.length s)). lia. Qed.

Lemma digits_length (s : string) : forall acc count,
  (String.length (snd (digits acc count s)) <= String.length s)%nat.
Proof.
  induction s as [|c r IH]; intros acc count; simpl; [lia |].
  destruct (is_digit c); simpl; [| lia].
  specialize (IH (acc * 10 + digit_val c)%N (S count)). lia.
Qed.

Lemma fraction_length (s : string) (f : N) (k : nat) (rest : string) :
  fraction s = Some (f, k, rest) ->
  (String.length rest <= String.length s)%nat.
Proof.
  unfold fraction. destruct s as [|c r]; [discriminate |].
  destruct (N.eqb (code c) 46); [| discriminate].
  pose proof (digits_length r 0 0) as H.
  destruct (digits 0 0 r) as [[x count] rest']. simpl in H.
  destruct count; [discriminate |]. intros [= <- <- <-]. simpl. lia.
Qed.

Lemma exponent_length (s : string) (x : Z) (rest : string) :
  exponent s = Some (x, rest) ->
  (String.length rest <= String.length s)%nat.
Proof.
  unfold exponent. destruct s as [|c r]; [discriminate |].
  destruct (N.eqb (code c) 101 || N.eqb (code c) 69); [| discriminate].
  destruct r as [|g r'].
  - simpl. discriminate.
  - destruct (N.eqb (code g) 45); [| destruct (N.eqb (code g) 43)];
      match goal with
      | |- context [digits 0 0 ?r1] =>
          pose proof (digits_length r1 0 0) as Hd;
          destruct (digits 0 0 r1) as [[y count] rest']; simpl in Hd;
          destruct count; [discriminate |]; intros [= _ <-]; simpl in *; lia
      end.
Qed.

Lemma number_tail_length (neg : bool) (int : N) (s : string) :
  match number_tail neg int s with
  | Scanned _ rest => (String.length rest <= String.length s)%nat
  | Malformed => False
  | OutOfFuel => False
  end.
Proof.
  unfold number_tail.
  destruct (fraction s) as [[[f k] s1]|] eqn:F.
  - apply fraction_length in F.
    destruct (exponent s1) as [[x rest]|] eqn:X; [| exact F].
    apply exponent_length in X. lia.
  - destruct (exponent s) as [[x rest]|] eqn:X; [| simpl; lia].
    apply exponent_length in X. exact X.
Qed.

Lemma unsigned_number_consumes (neg : bool) (s : string) :
  consumes s (unsigned_number neg s).
Proof.
  unfold unsigned_number. destruct s as [|c r]; [exact I |].
  destruct (N.eqb (code c) 48).
  - pose proof (number_tail_length neg 0 r) as H.
    destruct (number_tail neg 0 r); simpl in *; [lia | tauto | tauto].
  - destruct (is_digit c); [| exact I].
    pose proof (digits_length r (digit_val c) 1) as Hd.
    destruct (digits (digit_val c) 1 r) as [[int count] rest]. simpl in Hd.
    pose proof (number_tail_length neg int rest) as H.
    destruct (number_tail neg int rest); simpl in *; [lia | tauto | tauto].
Qed.

Lemma match_number_consumes (s : string) : consumes s (match_number s).
Proof.
  unfold match_number. destruct s as [|c r]; [exact I |].
  destruct (N.eqb (code c) 45).
  - pose proof (unsigned_number_consumes true r) as H.
    destruct (unsigned_number true r); simpl in *; [lia | tauto | tauto].
  - apply unsigned_number_consumes.
Qed.

Lemma after_length (w s rest : string) :
  after w s = Some rest ->
  String.length s = (String.length w + String.length rest)%nat.
Proof.
  revert s. induction w as [|a w IH]; intros s; simpl.
  - now intros [= ->].
  - destruct s as [|b s]; [discriminate |].
    destruct (Ascii.eqb a b); [| discriminate].
    intros H. apply IH in H. simpl. lia.
Qed.

Lemma word_consumes (w : string) (v : json) (s : string) :
  w <> EmptyString -> consumes s (word w v s).
Proof.
  intros Hw. unfold word. destruct (after w s) as [rest|] eqn:E; [| exact I].
  apply after_length in E. destruct w; [congruence |]. simpl in *. lia.
Qed.

Lemma literal_consumes (s : string) : consumes s (literal s).
Proof.
  unfold literal. pose proof (match_number_consumes s) as H.
  destruct (match_number s); [exact H | |];
    (destruct s as [|c r]; [exact I |];
     repeat match goal with
            | |- consumes _ (if ?b then _ else _) => destruct b
            | |- consumes _ (word _ _ _) => apply word_consumes; discriminate
            | |- consumes _ Malformed => exact I
            end).
Qed.

Lemma consumes_weaken {A : Type} (s s' : string) (r : scan A) :
  (String.length s' <= String.length s)%nat -> consumes s' r -> consumes s r.
Proof.
  destruct r; simpl; try tauto. lia.
Qed.

(** What is left after whitespace was skipped, by its first character. *)
Lemma skip_ws_cons (s : string) (d : ascii) (r : string) :
  skip_ws s = String d r -> (String.length r < String.length s)%nat.
Proof.
  intros E. pose proof (skip_ws_length s) as H. rewrite E in H. simpl in H. lia.
Qed.

(** With two units of fuel for each character, no scan runs dry, and
    every value it reads takes at least one character. *)
Lemma scans_consume (fuel : nat) :
  (forall s,
      (2 * String.length s + 1 <= fuel)%nat -> consumes s (scan_once fuel s))
  /\ (forall acc s,
         (2 * String.length s + 2 <= fuel)%nat -> consumes s (array_loop fuel acc s))
  /\ (forall acc s,
         (2 * String.length s + 2 <= fuel)%nat -> consumes s (object_loop fuel acc s)).
Proof.
  induction fuel as [|fuel (IHscan & IHarray & IHobject)].
  - repeat split; intros; lia.
  - split; [| split].
    + intros s Hfuel. cbn [scan_once].
      destruct s as [|c r]; [exact I |]. simpl in Hfuel.
      destruct (N.eqb (code c) 34).
      { pose proof (scanstring_consumes r) as H.
        destruct (scanstring r); simpl in *; [lia | tauto | tauto]. }
      destruct (N.eqb (code c) 123).
      { destruct (skip_ws r) as [|d r'] eqn:E; [exact I |].
        apply skip_ws_cons in E.
        destruct (N.eqb (code d) 125); [simpl; lia |].
        destruct (N.eqb (code d) 34); [| exact I].
        apply (consumes_weaken _ r'); [simpl; lia |].
        apply IHobject. lia. }
      destruct (N.eqb (code c) 91).
      { pose proof (skip_ws_length r) as L.
        destruct (skip_ws r) as [|d r'] eqn:E; [exact I |].
        destruct (N.eqb (code d) 93); [simpl in *; lia |].
        apply (consumes_weaken _ (String d r')); [simpl in *; lia |].
        apply IHarray. simpl in *. lia. }
      destruct (N.eqb (code c) 110); [apply word_consumes; discriminate |].
      destruct (N.eqb (code c) 116); [apply word_consumes; discriminate |].
      destruct (N.eqb (code c) 102); [apply word_consumes; discriminate |].
      apply literal_consumes.
    + intros acc s Hfuel. cbn [array_loop].
      pose proof (IHscan s ltac:(lia)) as H.
      destruct (scan_once fuel s) as [v rest | |]; [| exact I | exact H].
      simpl in H.
      destruct (skip_ws rest) as [|d r'] eqn:E; [exact I |].
      apply skip_ws_cons in E.
      destruct (N.eqb (code d) 93); [simpl; lia |].
      destruct (N.eqb (code d) 44); [| exact I].
      pose proof (skip_ws_length r') as L.
      apply (consumes_weaken _ (skip_ws r')); [lia |].
      apply IHarray. lia.
    + intros acc s Hfuel. cbn [object_loop].
      pose proof (scanstring_consumes s) as K.
      destruct (scanstring s) as [key rest | |]; [| exact I | exact K].
      simpl in K.
      destruct (skip_ws rest) as [|d r'] eqn:E; [exact I |].
      apply skip_ws_cons in E.
      destruct (N.eqb (code d) 58); [| exact I].
      pose proof (skip_ws_length r') as L.
      pose proof (IHscan (skip_ws r') ltac:(lia)) as H.
      destruct (scan_once fuel (skip_ws r')) as [v rest' | |]; [| exact I | exact H].
      simpl in H.
      destruct (skip_ws rest') as [|d' r''] eqn:E'; [exact I |].
      apply skip_ws_cons in E'.
      destruct (N.eqb (code d') 125); [simpl; lia |].
      destruct (N.eqb (code d') 44); [| exact I].
      destruct (skip_ws r'') as [|q r3] eqn:E''; [exact I |].
      apply skip_ws_cons in E''.
      destruct (N.eqb (code q) 34); [| exact I].
      apply (consumes_weaken _ r3); [lia |].
      apply IHobject. lia.
Qed.

(** [decode] never runs out of the fuel [json_loads] gives it: an error of
    [json_loads] is a text the grammar refuses. *)
Lemma decode_has_fuel (s : string) : decode (fuel_for s) s <> OutOfFuel.
Proof.
  unfold decode, fuel_for.
  pose proof (skip_ws_length s) as L.
  destruct (scans_consume (2 * String.length s + 2)) as (H & _ & _).
  specialize (H (skip_ws s) ltac:(lia)).
  destruct (scan_once (2 * String.length s + 2) (skip_ws s)) as [v rest | |];
    [| discriminate | destruct H].
  destruct (skip_ws rest); discriminate.
Qed.

End DecoderFacts.

Lemma json_loads_error (s : string) (e : exn) :
  json_loads s = Err e ->
  e = JSONDecodeError
  /\ Decoder.decode (Decoder.fuel_for s) s = Decoder.Malformed.
Proof.
  unfold json_loads. pose proof (DecoderFacts.decode_has_fuel s) as H.
  destruct (Decoder.decode (Decoder.fuel_for s) s); [discriminate | | congruence].
  intros [= <-]. now split.
Qed.

(* ================================================================== *)
(** ** The scanner on the example worlds *)

(** The decoder on the answers of the examples. *)
Example json_loads_examples :
  json_loads (Text.strip (listing ["A"; "B"]))
  = Ok (JArray [JObject [("name", JString "A")]; JObject [("name", JString "B")]])
  /\ json_loads (enabled "true") = Ok (JObject [("enabled", JBool true)])
  /\ json_loads "[]" = Ok (JArray [])
  /\ json_loads "null" = Ok JNull
  /\ json_loads "gh: Not Found" = Err JSONDecodeError.
Proof. repeat split; vm_compute; reflexivity. Qed.

(** The scenario of the specification: [B] and [C] are reported with one
    issue each, [A] is not, and the summary counts two out of three. *)
Example acme_report :
  written (trace acme (main json_loads no_repr [script; "acme"]))
  = [ fetching "acme" ++ LF;
      found 3 ++ LF;
      not_meeting ++ LF;
      CR ++ "Processing: 1/3 (A)" ++ Text.spaces 20;
      CR ++ "Processing: 2/3 (B)" ++ Text.spaces 20;
      clear_line;
      LF ++ "acme/B:" ++ LF;
      "  - 'main' branch is not protected" ++ LF;
      CR ++ "Processing: 3/3 (C)" ++ Text.spaces 20;
      clear_line;
      LF ++ "acme/C:" ++ LF;
      "  - No main or master branch found" ++ LF;
      clear_line;
      LF ++ "Total: 2 non-compliant repositories out of 3" ++ LF ]
  /\ result_of acme (main json_loads no_repr [script; "acme"]) = Returned 2.
Proof. split; vm_compute; reflexivity. Qed.

(** C1.  An organisation without repositories, whose listing is the empty
    JSON list: the text [[]] is not empty, so [main] goes on, reports zero
    repositories found and that all meet the requirements, and returns
    (exit status 0); the message for no repositories is not written. *)
Theorem empty_listing_not_reported :
  run empty_org (main json_loads no_repr [script; "empty-org"])
  = ( [ Wrote (fetching "empty-org" ++ LF);
        Called (list_command "empty-org");
        Wrote (found 0 ++ LF);
        Wrote (not_meeting ++ LF);
        Wrote clear_line;
        Wrote (all_meet ++ LF) ],
      Returned 0 )
  /\ exit_status (result_of empty_org (main json_loads no_repr [script; "empty-org"]))
     = 0%Z
  /\ ~ In (no_repositories ++ LF)
          (written (trace empty_org (main json_loads no_repr [script; "empty-org"]))).
Proof.
  split; [vm_compute; reflexivity |]. split; [vm_compute; reflexivity |].
  vm_compute. intuition discriminate.
Qed.

(** C2, the claim as stated fails: the protection call succeeds with an
    empty answer and [check_branch_protection] returns [True]. *)
Lemma empty_protection_counts_as_protected :
  blank_protection (protection_command "acme" "A" "main") = Some EmptyString
  /\ result_of blank_protection (check_branch_protection "acme" "A" "main")
     = Returned true.
Proof. split; vm_compute; reflexivity. Qed.

(** C3, the claim as stated fails: the probe of [main] succeeds with an
    empty answer, which is no error, and [main] is still taken as missing:
    [master] is probed, no protection is checked and the issue is the
    missing branch. *)
Lemma empty_probe_counts_as_missing :
  blank_probe (branch_command "acme" "A" "main") = Some EmptyString
  /\ run blank_probe (check_repository json_loads "acme" "A")
     = ( [ Called (branch_command "acme" "A" "main");
           Called (branch_command "acme" "A" "master") ],
         Returned [no_branch] ).
Proof. split; vm_compute; reflexivity. Qed.

(** C4 on the repository [B] of the scenario. *)
Lemma unprotected_branch_single_issue_acme :
  primary_branch acme "acme" "B" = Some "main"
  /\ protected acme "acme" "B" "main" = false
  /\ result_of acme (check_repository json_loads "acme" "B")
     = Returned [not_protected "main"]
  /\ forall b,
       ~ In (signatures_command "acme" "B" b)
            (commands (trace acme (check_repository json_loads "acme" "B"))).
Proof.
  split; [vm_compute; reflexivity |]. split; [vm_compute; reflexivity |].
  apply (unprotected_branch_single_issue json_loads acme "acme" "B" "main");
    vm_compute; reflexivity.
Defined.

(** C5.  The signatures call answers [null], well-formed JSON without an
    [enabled] entry: [check_required_signatures] raises [AttributeError]
    instead of returning [False], so the check of the repository ends with
    the exception and no issue. *)
Theorem null_signatures_answer_raises :
  json_loads "null" = Ok JNull
  /\ result_of null_signatures (check_required_signatures json_loads "acme" "A" "main")
     = Raised AttributeError
  /\ result_of null_signatures (check_repository json_loads "acme" "A")
     = Raised AttributeError.
Proof. repeat split; vm_compute; reflexivity. Qed.

(** C6 on the scenario. *)
Lemma summary_counts_repositories_with_issues_acme :
  exists program org_name text repos,
    [script; "acme"] = [program; org_name]
    /\ acme (list_command org_name) = Some text
    /\ json_loads (Text.strip text) = Ok repos
    /\ 2%nat = count_non_compliant json_loads no_repr acme org_name (Py.iter repos)
    /\ last (written (trace acme (main json_loads no_repr [script; "acme"]))) EmptyString
       = summary 2 (List.length (Py.iter repos)) ++ LF
    /\ forall repo branch,
         In repo (Py.iter repos) ->
         primary_branch acme org_name (name_of no_repr repo) = Some branch ->
         protected acme org_name (name_of no_repr repo) branch = true ->
         signatures_required json_loads acme org_name (name_of no_repr repo) branch = true ->
         non_compliant json_loads acme org_name (name_of no_repr repo) = false.
Proof.
  apply (summary_counts_repositories_with_issues json_loads no_repr acme [script; "acme"]).
  vm_compute. reflexivity.
Defined.

(** C8.  With one repository whose signatures call answers [null], [main]
    ends in an uncaught [AttributeError]: exit status 1, and the last
    thing written is the progress line, not a summary. *)
Theorem null_signatures_answer_ends_main :
  result_of null_signatures (main json_loads no_repr [script; "acme"])
  = Raised AttributeError
  /\ exit_status (result_of null_signatures (main json_loads no_repr [script; "acme"]))
     = 1%Z
  /\ last (written (trace null_signatures (main json_loads no_repr [script; "acme"])))
          EmptyString
     = CR ++ "Processing: 1/1 (A)" ++ Text.spaces 20.
Proof. repeat split; vm_compute; reflexivity. Qed.

(** C10 on an answer whose [enabled] entry is the string [false]: the
    check returns that string, which is true in a test, and the repository
    has no issue. *)
Lemma enabled_value_returned_unchanged_quoted_false :
  Py.truthy (JString "false") = true
  /\ result_of quoted_false (check_required_signatures json_loads "acme" "A" "main")
     = Returned (JString "false")
  /\ result_of quoted_false (check_repository json_loads "acme" "A") = Returned [].
Proof.
  destruct (enabled_value_returned_unchanged json_loads quoted_false "acme" "A" "main"
              (enabled (quote ++ "false" ++ quote))
              [("enabled", JString "false")] (JString "false"))
    as [Hvalue Hrepo]; try (vm_compute; (reflexivity || discriminate)).
  split; [reflexivity |]. split; [exact Hvalue |].
  apply Hrepo; vm_compute; reflexivity.
Defined.

(* ================================================================== *)
(** ** More runs on the example worlds *)

(** X1 without an organisation on the command line, and on an empty
    argument list. *)
Lemma wrong_argument_count_exits_alone :
  List.length [script] <> 2%nat
  /\ run offline (main json_loads no_repr [script])
     = ([Wrote ("Usage: find-insecure-gh-repos.py <organization-name>" ++ LF)],
        Exited 1)
  /\ run offline (main json_loads no_repr []) = ([], Raised IndexError).
Proof.
  split; [discriminate |]. split.
  - apply (wrong_argument_count_exits json_loads no_repr offline [script]).
    discriminate.
  - apply (wrong_argument_count_exits json_loads no_repr offline []).
    discriminate.
Defined.

(** X2 when every command fails. *)
Lemma listing_failure_aborts_offline :
  answered offline (list_command "acme") = false
  /\ written (trace offline (main json_loads no_repr [script; "acme"]))
     = [fetching "acme" ++ LF; no_repositories ++ LF]
  /\ commands (trace offline (main json_loads no_repr [script; "acme"]))
     = [list_command "acme"]
  /\ exit_status (result_of offline (main json_loads no_repr [script; "acme"])) = 1%Z.
Proof.
  split; [reflexivity |].
  apply (listing_failure_aborts json_loads no_repr offline script "acme").
  reflexivity.
Defined.

(** X3 on a listing that is no JSON. *)
Lemma undecodable_listing_raises_garbled :
  run garbled_listing (main json_loads no_repr [script; "acme"])
  = ([Wrote (fetching "acme" ++ LF); Called (list_command "acme")],
     Raised JSONDecodeError)
  /\ exit_status (result_of garbled_listing (main json_loads no_repr [script; "acme"]))
     = 1%Z.
Proof.
  apply (undecodable_listing_raises json_loads no_repr garbled_listing script "acme"
           ("<html>Bad gateway</html>" ++ LF) JSONDecodeError);
    vm_compute; (reflexivity || discriminate).
Defined.

(** X11 on a protected branch whose [enabled] entry is [false]. *)
Lemma unsigned_branch_single_issue_unsigned :
  run unsigned (check_repository json_loads "acme" "A")
  = ( [ Called (branch_command "acme" "A" "main");
        Called (protection_command "acme" "A" "main");
        Called (signatures_command "acme" "A" "main") ],
      Returned ["Commit signing not required for 'main' branch"] ).
Proof.
  apply (unsigned_branch_single_issue json_loads unsigned "acme" "A" "main").
  - vm_compute. reflexivity.
  - vm_compute. reflexivity.
  - right. exists (enabled "false"). split; [vm_compute; reflexivity |].
    right. exists [("enabled", JBool false)].
    split; vm_compute; reflexivity.
Defined.

(** X13 on the repository [B] of the scenario. *)
Lemma scan_repository_output_acme :
  written (trace acme
             (scan_repository json_loads no_repr "acme" 3 2
                (JObject [("name", JString "B")]) 0))
  = [ progress_line 3 2 "B"; clear_line; report_header "acme" "B" ++ LF;
      issue_line (not_protected "main") ++ LF ].
Proof.
  apply (scan_repository_output json_loads no_repr acme "acme" 3 2
           (JObject [("name", JString "B")]) 0 (JString "B")).
  reflexivity.
Defined.

(** X9 on the scenario: the issue of [B] and that of [C], for a count of
    two. *)
Lemma issue_prints_match_count_acme :
  filter is_issue_line
    (written (trace acme (main json_loads no_repr [script; "acme"])))
  = [issue_line (not_protected "main") ++ LF; issue_line no_branch ++ LF]
  /\ List.length
       (filter is_issue_line
          (written (trace acme (main json_loads no_repr [script; "acme"]))))
     = 2%nat.
Proof.
  apply (issue_prints_match_count json_loads no_repr acme [script; "acme"]
           (trace acme (main json_loads no_repr [script; "acme"])) 2).
  vm_compute. reflexivity.
Defined.

(** X12 on the scenario. *)
Lemma progress_lines_number_the_listing_acme :
  filter is_progress_line
    (written (trace acme (main json_loads no_repr [script; "acme"])))
  = [progress_line 3 1 "A"; progress_line 3 2 "B"; progress_line 3 3 "C"].
Proof.
  apply (progress_lines_number_the_listing json_loads no_repr acme [script; "acme"]
           (trace acme (main json_loads no_repr [script; "acme"])) 2).
  vm_compute. reflexivity.
Defined.

(** X10 on the scenario. *)
Lemma summary_line_of_the_listing_acme :
  (2 <= List.length (listed json_loads acme "acme"))%nat
  /\ (last (written (trace acme (main json_loads no_repr [script; "acme"]))) EmptyString
      = all_meet ++ LF
      <-> Forall (fun repo => issues_of json_loads acme "acme" (name_of no_repr repo) = [])
            (listed json_loads acme "acme"))
  /\ (2%nat <> 0%nat ->
      last (written (trace acme (main json_loads no_repr [script; "acme"]))) EmptyString
      = total_line 2 (List.length (listed json_loads acme "acme")) ++ LF).
Proof.
  apply (summary_line_of_the_listing json_loads no_repr acme [script; "acme"]
           (trace acme (main json_loads no_repr [script; "acme"])) 2).
  vm_compute. reflexivity.
Defined.

(** X15 on a listing whose second element is an empty object. *)
Lemma nameless_element_raises_nameless :
  run nameless (main json_loads no_repr [script; "acme"])
  = ( Wrote (fetching "acme" ++ LF)
      :: Called (list_command "acme")
      :: Wrote (found 2 ++ LF)
      :: Wrote (not_meeting ++ LF)
      :: trace nameless
           (repo_loop json_loads no_repr "acme" 2 1 [JObject [("name", JString "A")]] 0),
      Raised KeyError ).
Proof.
  refine (nameless_element_raises json_loads no_repr nameless script "acme"
            ("[" ++ entry "A" ++ ",{}]" ++ LF)
            (JArray [JObject [("name", JString "A")]; JObject []]) 2
            [JObject [("name", JString "A")]] [] (JObject []) KeyError
            _ _ _ _ _ _ _).
  - vm_compute. reflexivity.
  - vm_compute. discriminate.
  - vm_compute. reflexivity.
  - reflexivity.
  - reflexivity.
  - apply Forall_cons; [| apply Forall_nil].
    exists (JString "A"). split; [reflexivity |].
    intros e. vm_compute. discriminate.
  - reflexivity.
Defined.

(** X16 on the repository [A] of the scenario. *)
Lemma no_issue_only_on_positive_answers_acme :
  exists branch probe protection text pairs v,
    primary_branch acme "acme" "A" = Some branch
    /\ acme (branch_command "acme" "A" branch) = Some probe
    /\ Text.strip probe <> EmptyString
    /\ acme (protection_command "acme" "A" branch) = Some protection
    /\ acme (signatures_command "acme" "A" branch) = Some text
    /\ json_loads (Text.strip text) = Ok (JObject pairs)
    /\ Py.dict_get "enabled" pairs = Some v
    /\ Py.truthy v = true.
Proof.
  apply (no_issue_only_on_positive_answers json_loads acme "acme" "A").
  vm_compute. reflexivity.
Defined.

(** X4 on the scenario. *)
Lemma summary_only_after_every_check_acme :
  exists program org_name text repos total_repos,
    [script; "acme"] = [program; org_name]
    /\ acme (list_command org_name) = Some text
    /\ Text.strip text <> EmptyString
    /\ json_loads (Text.strip text) = Ok repos
    /\ Py.len repos = Ok total_repos
    /\ Forall (checkable json_loads no_repr acme org_name) (Py.iter repos).
Proof.
  apply (summary_only_after_every_check json_loads no_repr acme [script; "acme"]
           (trace acme (main json_loads no_repr [script; "acme"])) 2).
  vm_compute. reflexivity.
Defined.


